(** * minna-core: the hybrid retrieval engine of [minna/core/vector_db.py]

  A shallow embedding of [VectorManager] (admission filter, embedding
  truncation, transactional batch insert, keyword search, hybrid search)
  together with the properties its specification states about it, and of
  its callers: the [sync] of the Slack, Google and GitHub workers and the
  MCP tool [get_context].

  Conventions of the embedding.
  - A Python [str] is a [string]; a character is a code point below 256.
  - The SQLite file is a pair of tables, each a list of rows in rowid
    (insertion) order.  What a reader sees is the committed [db]; an open
    connection works on a private view that [commit] publishes and
    [rollback] discards.
  - Python control flow ([try] / [except] / [finally], [raise], [print]) is a
    state-and-exception monad over a [world].
  - What the repository does not contain -- the embedding model, numpy's
    arithmetic, the sqlite-vec distance and its order among equally far
    vectors, the [json] codec -- is a class of collaborators the
    definitions are parametric in.
  - [_get_connection] runs before the [try] of each method.  Each method
    is given twice: as it runs on a connection that was returned
    ([add_documents], [search_keyword], [search]), and as it runs whatever
    the steps of [_get_connection] come to ([add_documents_from],
    [search_keyword_from], [search_from]); the two share the [try]
    statement.
  - A distance is a rational number; floating-point rounding is outside the
    model. *)

From Stdlib Require Import ZArith QArith List String Ascii Lia Lqa Sorted Bool.
From stdpp Require Import base gmap strings list pretty.

Local Open Scope string_scope.

(* ===================================================================== *)
(** ** Python strings *)
(* ===================================================================== *)

Module PyStr.

(** [str.isspace] on one character, for code points below 256:
    TAB..CR, FS..US, SPACE, NEL and NBSP. *)
Definition is_space (c : ascii) : bool :=
  let n := N_of_ascii c in
  ((9 <=? n) && (n <=? 13) || (28 <=? n) && (n <=? 32)
   || (n =? 133) || (n =? 160))%N.

Fixpoint lstrip (s : string) : string :=
  match s with
  | EmptyString => EmptyString
  | String c s' => if is_space c then lstrip s' else s
  end.

Fixpoint rstrip (s : string) : string :=
  match s with
  | EmptyString => EmptyString
  | String c s' =>
      match rstrip s' with
      | EmptyString => if is_space c then EmptyString else String c EmptyString
      | r => String c r
      end
  end.

(** [s.strip()] *)
Definition strip (s : string) : string := rstrip (lstrip s).

(** [s[:n]] for a non-negative literal [n]. *)
Definition prefix_of (n : nat) (s : string) : string := substring 0 n s.

(** [len(s)] as a Python integer. *)
Definition len (s : string) : Z := Z.of_nat (String.length s).

End PyStr.

(* ===================================================================== *)
(** ** SQLite scalar functions used by the queries *)
(* ===================================================================== *)

Module Sql.

(** SQLite reads a TEXT value as a C string: up to the first NUL. *)
Fixpoint c_str (s : string) : string :=
  match s with
  | EmptyString => EmptyString
  | String c s' => if (N_of_ascii c =? 0)%N then EmptyString else String c (c_str s')
  end.

(** [length(X)]: the number of characters before the first NUL. *)
Definition length (s : string) : Z := Z.of_nat (String.length (c_str s)).

(** LIKE folds the case of the 26 ASCII letters only. *)
Definition fold_case (c : ascii) : ascii :=
  let n := N_of_ascii c in
  if ((65 <=? n) && (n <=? 90))%N then ascii_of_N (n + 32) else c.

(** The LIKE matcher: [%] stands for any run of characters, [_] for any
    single character, every other character for itself up to ASCII case.
    The query text is spliced into the pattern unescaped. *)
Fixpoint like_match (pattern : string) (s : string) : bool :=
  match pattern with
  | EmptyString => match s with EmptyString => true | _ => false end
  | String p pattern' =>
      if Ascii.eqb p "%" then
        (fix any_suffix (t : string) : bool :=
           like_match pattern' t
           || match t with
              | EmptyString => false
              | String _ t' => any_suffix t'
              end) s
      else
        match s with
        | EmptyString => false
        | String c s' =>
            (Ascii.eqb p "_" || Ascii.eqb (fold_case p) (fold_case c))
            && like_match pattern' s'
        end
  end.

(** [X LIKE P] on two TEXT values.  That the LIKE function refuses a
    pattern over [max_like_pattern] bytes is a failure of the statement
    that evaluates it, and is modelled there ([like_refused]). *)
Definition like (x pattern : string) : bool :=
  like_match (c_str pattern) (c_str x).

(** The specification's reading of the keyword test, in its words: the
    content contains the query as a substring, case-insensitively. *)
Fixpoint starts_with_caseless (needle hay : string) : bool :=
  match needle, hay with
  | EmptyString, _ => true
  | String _ _, EmptyString => false
  | String a needle', String b hay' =>
      Ascii.eqb (fold_case a) (fold_case b) && starts_with_caseless needle' hay'
  end.

Fixpoint contains_caseless (needle hay : string) : bool :=
  starts_with_caseless needle hay
  || match hay with
     | EmptyString => false
     | String _ hay' => contains_caseless needle hay'
     end.

(** A text without NUL, and a query without NUL and without the two LIKE
    wildcards. *)
Fixpoint nul_free (s : string) : bool :=
  match s with
  | EmptyString => true
  | String c s' => negb (N_of_ascii c =? 0)%N && nul_free s'
  end.

Fixpoint literal (s : string) : bool :=
  match s with
  | EmptyString => true
  | String c s' =>
      negb (Ascii.eqb c "%") && negb (Ascii.eqb c "_")
      && negb (N_of_ascii c =? 0)%N && literal s'
  end.

(** [LIMIT n]: a negative [n] means no upper bound. *)
Definition limit {A} (n : Z) (rows : list A) : list A :=
  if (n <? 0)%Z then rows else take (Z.to_nat n) rows.

(** A bound parameter must fit SQLite's 64-bit INTEGER. *)
Definition fits_int64 (n : Z) : bool :=
  ((- 2 ^ 63 <=? n) && (n <? 2 ^ 63))%Z.

(** The length of a TEXT value in bytes.  SQLite holds the text in UTF-8,
    where a code point below 128 takes one byte and one from 128 to 255
    takes two; a NUL is a byte like any other. *)
Fixpoint bytes (s : string) : Z :=
  match s with
  | EmptyString => 0
  | String c s' => (if (N_of_ascii c <? 128)%N then 1 else 2) + bytes s'
  end%Z.

(** SQLITE_MAX_LIKE_PATTERN_LENGTH: the LIKE function refuses a pattern of
    more bytes with "LIKE or GLOB pattern too complex". *)
Definition max_like_pattern : Z := 50000.

Definition pattern_too_complex (pattern : string) : bool :=
  (max_like_pattern <? bytes pattern)%Z.

End Sql.

(* ===================================================================== *)
(** ** Collaborators outside the repository *)
(* ===================================================================== *)

(** The embedding model (fastembed), numpy's arithmetic on its arrays, the
    distance sqlite-vec reports for a stored vector and a query vector, the
    order in which sqlite-vec lists stored vectors that are equally far
    from the query, and the [json] codec for metadata.  The order among
    equals is some rearrangement of the candidates, made before they are
    sorted by distance with a sort that keeps equals in place. *)
Class Collaborators := {
  num : Type;
  embed_raw : string -> list num;
  l2_norm : list num -> num;
  num_is_zero : num -> bool;
  num_div : num -> num -> num;
  vec_distance : list num -> list num -> Q;
  knn_tie_order : list (Z * Q) -> list (Z * Q);
  knn_tie_order_permutation : forall l, knn_tie_order l ≡ₚ l;
  json_dumps : gmap string string -> string;
  json_loads : string -> option (gmap string string)
}.

(* ===================================================================== *)
(** ** Data model *)
(* ===================================================================== *)

(** [minna.ingestion.base.Document] *)
Record Document := {
  source : string;
  content : string;
  metadata : gmap string string
}.

(** A result dictionary; a keyword hit has no ["distance"] key. *)
Record hit := {
  hit_source : string;
  hit_content : option string;
  hit_metadata : gmap string string;
  hit_distance : option Q
}.

(** The dictionary [search] returns. *)
Record response := {
  results : list hit;
  search_strategy : string
}.

(** Modelled from the spec: core/schema.sql is not among the sources.  The
    document table has the columns [id] (primary key), [source], [content]
    and [metadata] (encoded text) and an implicit sequential rowid; the
    vector index is keyed by that rowid. *)
Record doc_row := {
  row_rowid : Z;
  row_id : string;
  row_source : string;
  row_content : option string;
  row_metadata : option string
}.

Inductive exn :=
| StorageFailure (statement : nat)
| IntegrityError
| OperationalError
| OverflowError
| JSONDecodeError
| KeyError
| ProgrammingError.

Inductive result (A : Type) :=
| Ok (a : A)
| Raise (e : exn).
Arguments Ok {A} a.
Arguments Raise {A} e.

(** What the steps of one call of [_get_connection] come to -- [None]
    where the step returns, the exception where it raises:
    [sqlite3.connect(self.db_path)], the two [conn.execute("PRAGMA ...")],
    [conn.enable_load_extension(True)] and [sqlite_vec.load(conn)]. *)
Record opening := {
  connect : option exn;
  journal_mode : option exn;
  busy_timeout : option exn;
  enable_load_extension : option exn;
  load_extension : option exn
}.

(** The call in which every step returns. *)
Definition granted : opening :=
  {| connect := None; journal_mode := None; busy_timeout := None;
     enable_load_extension := None; load_extension := None |}.

Inductive message :=
| DroppedTooShort (channel preview : string)
| DroppedUnknownSource
| SuccessfullyAdded (inserted_count : nat)
| ErrorAddingDocuments (e : exn)
| ErrorKeywordSearch (e : exn)
| ErrorVectorSearch (e : exn).

Inductive event :=
| Connect
| Commit
| Rollback
| Close
| Print (m : message).

(** The first-match-wins verdict of the quality filter. *)
Inductive drop_reason := too_short | unknown_source.
Inductive admission := keep | drop (reason : drop_reason).

Section Engine.
Context `{Collaborators}.

Record vec_row := {
  vec_rowid : Z;
  vec_embedding : list num
}.

Record store := {
  documents : list doc_row;
  vec_documents : list vec_row
}.

Definition empty_store : store := {| documents := []; vec_documents := [] |}.

(** The process and its surroundings.  [db] is the committed file, [conn] the
    view of the open connection (if any).  [faults k] says whether the
    storage engine fails the [k]-th statement of the run for a reason outside
    the tables (disk, lock wait, extension); [uuid4 n] is the [n]-th
    identifier the generator hands out. *)
Record world := {
  db : store;
  conn : option store;
  executed : nat;
  minted : nat;
  faults : nat -> bool;
  uuid4 : nat -> string;
  trace : list event
}.

Definition set_conn (c : option store) (w : world) : world :=
  {| db := db w; conn := c; executed := executed w; minted := minted w;
     faults := faults w; uuid4 := uuid4 w; trace := trace w |}.

Definition set_db (s : store) (w : world) : world :=
  {| db := s; conn := conn w; executed := executed w; minted := minted w;
     faults := faults w; uuid4 := uuid4 w; trace := trace w |}.

Definition tick (w : world) : world :=
  {| db := db w; conn := conn w; executed := S (executed w); minted := minted w;
     faults := faults w; uuid4 := uuid4 w; trace := trace w |}.

Definition mint (w : world) : world :=
  {| db := db w; conn := conn w; executed := executed w; minted := S (minted w);
     faults := faults w; uuid4 := uuid4 w; trace := trace w |}.

Definition emit (e : event) (w : world) : world :=
  {| db := db w; conn := conn w; executed := executed w; minted := minted w;
     faults := faults w; uuid4 := uuid4 w; trace := trace w ++ [e] |}.

(* --------------------------------------------------------------------- *)
(** *** The monad of Python statements *)

Definition M (A : Type) : Type := world -> result A * world.

Definition ret {A} (a : A) : M A := fun w => (Ok a, w).

Definition raise {A} (e : exn) : M A := fun w => (Raise e, w).

Definition bind {A B} (c : M A) (k : A -> M B) : M B :=
  fun w =>
    match c w with
    | (Ok a, w') => k a w'
    | (Raise e, w') => (Raise e, w')
    end.

(** [try: body except Exception as e: handler e] *)
Definition try_except {A} (body : M A) (handler : exn -> M A) : M A :=
  fun w =>
    match body w with
    | (Ok a, w') => (Ok a, w')
    | (Raise e, w') => handler e w'
    end.

(** [try: body finally: cleanup] *)
Definition try_finally {A} (body : M A) (cleanup : M unit) : M A :=
  fun w =>
    match body w with
    | (r, w') =>
        match cleanup w' with
        | (Ok _, w'') => (r, w'')
        | (Raise e, w'') => (Raise e, w'')
        end
    end.

Notation "x <- c1 ;; c2" := (bind c1 (fun x => c2))
  (at level 100, c1 at next level, right associativity).
Notation "c1 ;; c2" := (bind c1 (fun _ => c2))
  (at level 100, right associativity).

(** [print(...)] *)
Definition print (m : message) : M unit := fun w => (Ok tt, emit (Print m) w).

(** [uuid.uuid4()] *)
Definition fresh_uuid : M string := fun w => (Ok (uuid4 w (minted w)), mint w).

(* --------------------------------------------------------------------- *)
(** *** The connection *)

(** [self._get_connection()] when each of its steps returns: a new
    connection sees the committed file. *)
Definition get_connection : M unit :=
  fun w => (Ok tt, emit Connect (set_conn (Some (db w)) w)).

(** [self._get_connection()] in general.  The steps run outside any [try]:
    the first that raises ends the call, and when that is after
    [sqlite3.connect] has returned, the connection it opened stays open. *)
Definition step (outcome : option exn) : M unit :=
  match outcome with
  | None => ret tt
  | Some e => raise e
  end.

Definition open_connection (o : opening) : M unit :=
  step (connect o) ;;
  get_connection ;;
  step (journal_mode o) ;;
  step (busy_timeout o) ;;
  step (enable_load_extension o) ;;
  step (load_extension o).

(** [cursor.execute(...)]: one statement against the connection's view.  The
    engine may fail it ([faults]); otherwise [run] is its meaning on the
    tables. *)
Definition execute {A} (run : store -> result A * store) : M A :=
  fun w =>
    match conn w with
    | None => (Raise ProgrammingError, w)
    | Some view =>
        let k := executed w in
        if faults w k then (Raise (StorageFailure k), tick w)
        else
          match run view with
          | (r, view') => (r, set_conn (Some view') (tick w))
          end
    end.

(** [conn.commit()]: publishes the view, unless the engine fails it. *)
Definition commit : M unit :=
  fun w =>
    match conn w with
    | None => (Raise ProgrammingError, w)
    | Some view =>
        let k := executed w in
        if faults w k then (Raise (StorageFailure k), tick w)
        else (Ok tt, emit Commit (set_db view (tick w)))
    end.

(** [conn.rollback()]: the view falls back to the committed file. *)
Definition rollback : M unit :=
  fun w =>
    match conn w with
    | None => (Raise ProgrammingError, w)
    | Some _ => (Ok tt, emit Rollback (set_conn (Some (db w)) w))
    end.

(** [conn.close()]: whatever was not committed is gone. *)
Definition close : M unit :=
  fun w => (Ok tt, emit Close (set_conn None w)).

(* --------------------------------------------------------------------- *)
(** *** The statements *)

(** The rowid SQLite gives a new row: one more than the largest in use. *)
Definition next_rowid (rows : list doc_row) : Z :=
  match rows with
  | [] => 1
  | r :: rows' => foldr (fun x m => Z.max (row_rowid x) m) (row_rowid r) rows' + 1
  end%Z.

(** [INSERT INTO documents (id, source, content, metadata) VALUES (?, ?, ?, ?)].
    [id] is the primary key: a second row under an identifier in use is
    refused. *)
Definition insert_document (doc_id src text metadata_json : string)
  (view : store) : result unit * store :=
  if existsb (fun r => String.eqb (row_id r) doc_id) (documents view)
  then (Raise IntegrityError, view)
  else
    let row := {| row_rowid := next_rowid (documents view); row_id := doc_id;
                  row_source := src; row_content := Some text;
                  row_metadata := Some metadata_json |} in
    (Ok tt, {| documents := documents view ++ [row];
               vec_documents := vec_documents view |}).

(** [SELECT rowid FROM documents WHERE id = ?] followed by [fetchone()] *)
Definition select_rowid (doc_id : string) (view : store)
  : result (option Z) * store :=
  (Ok (row_rowid <$> List.find (fun r => String.eqb (row_id r) doc_id)
                               (documents view)), view).

(** [INSERT INTO vec_documents (rowid, embedding) VALUES (?, ?)].  The index
    is keyed by rowid: a second entry under a rowid in use is refused. *)
Definition insert_vector (rowid : Z) (embedding : list num)
  (view : store) : result unit * store :=
  if existsb (fun v => (vec_rowid v =? rowid)%Z) (vec_documents view)
  then (Raise IntegrityError, view)
  else
    (Ok tt, {| documents := documents view;
               vec_documents := vec_documents view
                                ++ [{| vec_rowid := rowid;
                                       vec_embedding := embedding |}] |}).

(** The read filter both queries repeat:
    [content IS NOT NULL AND length(content) > 10 AND source != 'Unknown'].
    A comparison with NULL is not true, so a NULL content never passes. *)
Definition readable (r : doc_row) : bool :=
  match row_content r with
  | None => false
  | Some c => (10 <? Sql.length c)%Z && negb (String.eqb (row_source r) "Unknown")
  end.

(** [SELECT source, content, metadata FROM documents
     WHERE content LIKE ? AND length(content) > 10 AND source != 'Unknown'
     LIMIT ?] *)
Definition keyword_where (like_query : string) (r : doc_row) : bool :=
  match row_content r with
  | None => false
  | Some c => Sql.like c like_query
  end && readable r.

(** The scan evaluates LIKE on the first row it visits, whatever the
    row holds, and visits one unless the table is empty or the limit is 0;
    a pattern the LIKE function refuses then fails the statement. *)
Definition like_refused (like_query : string) (limit : Z) (view : store)
  : bool :=
  Sql.pattern_too_complex like_query && negb (limit =? 0)%Z
  && match documents view with [] => false | _ :: _ => true end.

Definition select_keyword (like_query : string) (limit : Z) (view : store)
  : result (list (string * option string * option string)) * store :=
  if like_refused like_query limit view then (Raise OperationalError, view)
  else
    (Ok (map (fun r => (row_source r, row_content r, row_metadata r))
             (Sql.limit limit (List.filter (keyword_where like_query)
                                           (documents view)))), view).

(** Stable insertion sort by ascending key: [ORDER BY distance]. *)
Fixpoint insert_by {A} (key : A -> Q) (x : A) (l : list A) : list A :=
  match l with
  | [] => [x]
  | y :: l' =>
      if Qle_bool (key x) (key y) then x :: l else y :: insert_by key x l'
  end.

Definition order_by {A} (key : A -> Q) (l : list A) : list A :=
  foldr (insert_by key) [] l.

(** A row of the vector query: [(source, content, metadata, distance)]. *)
Definition vector_row : Type := string * option string * option string * Q.

Definition row_distance (r : vector_row) : Q := r.2.

Definition vector_row_eqb (a b : vector_row) : bool :=
  let '(s1, c1, m1, d1) := a in
  let '(s2, c2, m2, d2) := b in
  bool_decide (s1 = s2) && bool_decide (c1 = c2) && bool_decide (m1 = m2)
  && Qeq_bool d1 d2.

(** [SELECT DISTINCT]: a row equal to an earlier one is left out. *)
Fixpoint distinct (rows : list vector_row) : list vector_row :=
  match rows with
  | [] => []
  | r :: rows' =>
      r :: List.filter (fun x => negb (vector_row_eqb r x)) (distinct rows')
  end.

(** The CTE [matches]: the [k] stored vectors nearest to the query vector,
    [SELECT rowid, distance FROM vec_documents WHERE embedding MATCH ?
     ORDER BY distance LIMIT ?].  Which of two equally far vectors comes
    first is sqlite-vec's choice, [knn_tie_order]. *)
Definition knn_matches (query_vector : list num) (k : Z) (view : store)
  : list (Z * Q) :=
  take (Z.to_nat k)
       (order_by snd
          (knn_tie_order
             (map (fun v => (vec_rowid v,
                             vec_distance (vec_embedding v) query_vector))
                  (vec_documents view)))).

(** [FROM matches m JOIN documents d ON m.rowid = d.rowid WHERE ...] *)
Definition join_documents (matches : list (Z * Q)) (docs : list doc_row)
  : list vector_row :=
  flat_map
    (fun m =>
       map (fun d => (row_source d, row_content d, row_metadata d, m.2))
           (List.filter (fun d => (row_rowid d =? m.1)%Z && readable d) docs))
    matches.

(** sqlite-vec refuses a [k] that is negative or above 4096. *)
Definition vec_k_max : Z := 4096.

Definition knn_refused (k : Z) : bool := ((k <? 0) || (vec_k_max <? k))%Z.

(** The whole vector query. *)
Definition select_vector (query_vector : list num) (limit : Z) (view : store)
  : result (list vector_row) * store :=
  if knn_refused limit then (Raise OperationalError, view)
  else
    (Ok (order_by row_distance
           (distinct (join_documents (knn_matches query_vector limit view)
                                     (documents view)))), view).

(** Binding a Python integer to a [?]. *)
Definition bind_integer (n : Z) : M unit :=
  if Sql.fits_int64 n then ret tt else raise OverflowError.

(** [json.loads(text) if text else {}] *)
Definition load_metadata (text : option string) : M (gmap string string) :=
  match text with
  | None => ret ∅
  | Some EmptyString => ret ∅
  | Some t =>
      match json_loads t with
      | Some m => ret m
      | None => raise JSONDecodeError
      end
  end.

(** [l[:n]] *)
Definition slice_to {A} (n : Z) (l : list A) : list A :=
  if (0 <=? n)%Z then take (Z.to_nat n) l
  else take (length l - Z.to_nat (- n)) l.

(* --------------------------------------------------------------------- *)
(** *** [VectorManager.embed_text] *)

Definition target_dim : nat := 512.

Definition embed_text (text : string) : list num :=
  let embedding := embed_raw text in
  let truncated_embedding := take target_dim embedding in
  let norm := l2_norm truncated_embedding in
  let normalized_embedding :=
    if num_is_zero norm then truncated_embedding
    else map (fun x => num_div x norm) truncated_embedding in
  normalized_embedding.

(* --------------------------------------------------------------------- *)
(** *** [VectorManager.add_documents] *)

(** The quality filter at the head of the loop body, as a verdict. *)
Definition quality_filter (doc : Document) : admission :=
  let clean_content := PyStr.strip (content doc) in
  if (PyStr.len clean_content <? 10)%Z then drop too_short
  else if String.eqb (source doc) "Unknown" then drop unknown_source
  else keep.

(** Steps 1 to 4 of the loop body. *)
Definition insert_one (doc : Document) (inserted_count : nat) : M nat :=
  let embedding := embed_text (content doc) in
  doc_id <- fresh_uuid ;;
  let metadata_json := json_dumps (metadata doc) in
  execute (insert_document doc_id (source doc) (content doc) metadata_json) ;;
  row <- execute (select_rowid doc_id) ;;
  match row with
  | Some rowid =>
      execute (insert_vector rowid embedding) ;;
      ret (S inserted_count)
  | None => ret inserted_count
  end.

(** [for doc in documents: ...] *)
Fixpoint add_loop (docs : list Document) (inserted_count : nat) : M nat :=
  match docs with
  | [] => ret inserted_count
  | doc :: rest =>
      let clean_content := PyStr.strip (content doc) in
      if (PyStr.len clean_content <? 10)%Z then
        let channel := default "Unknown" (metadata doc !! "channel_name") in
        print (DroppedTooShort channel (PyStr.prefix_of 20 clean_content)) ;;
        add_loop rest inserted_count
      else if String.eqb (source doc) "Unknown" then
        print DroppedUnknownSource ;;
        add_loop rest inserted_count
      else
        n <- insert_one doc inserted_count ;;
        add_loop rest n
  end.

(** The body of the [try]: the loop, then the one [commit].  The function
    has no [return] with a value: a normal exit yields Python's [None], here
    [None : option Z]. *)
Definition insert_batch (docs : list Document) : M (option Z) :=
  inserted_count <- add_loop docs 0 ;;
  commit ;;
  print (SuccessfullyAdded inserted_count) ;;
  ret None.

(** The [try] statement, on the connection it was handed. *)
Definition insert_transaction (docs : list Document) : M (option Z) :=
  try_finally
    (try_except
       (insert_batch docs)
       (fun e =>
          rollback ;;
          print (ErrorAddingDocuments e) ;;
          raise e))
    close.

(** [add_documents] when [_get_connection] returns a connection. *)
Definition add_documents (docs : list Document) : M (option Z) :=
  match docs with
  | [] => ret None
  | _ :: _ =>
      get_connection ;;
      insert_transaction docs
  end.

(** [add_documents] whatever [_get_connection] comes to. *)
Definition add_documents_from (o : opening) (docs : list Document)
  : M (option Z) :=
  match docs with
  | [] => ret None
  | _ :: _ =>
      open_connection o ;;
      insert_transaction docs
  end.

(* --------------------------------------------------------------------- *)
(** *** [VectorManager.search_keyword] *)

Definition keyword_hit (row : string * option string * option string)
  (m : gmap string string) : hit :=
  {| hit_source := row.1.1; hit_content := row.1.2; hit_metadata := m;
     hit_distance := None |}.

Fixpoint format_keyword_rows
  (rows : list (string * option string * option string))
  (formatted_results : list hit) : M (list hit) :=
  match rows with
  | [] => ret formatted_results
  | row :: rows' =>
      m <- load_metadata row.2 ;;
      format_keyword_rows rows' (formatted_results ++ [keyword_hit row m])
  end.

(** The [try] statement, on the connection it was handed. *)
Definition keyword_lookup (query : string) (limit : Z) : M (list hit) :=
  try_finally
    (try_except
       (let like_query := "%" ++ query ++ "%" in
        bind_integer limit ;;
        rows <- execute (select_keyword like_query limit) ;;
        format_keyword_rows rows [])
       (fun e =>
          print (ErrorKeywordSearch e) ;;
          ret []))
    close.

(** [search_keyword] when [_get_connection] returns a connection. *)
Definition search_keyword (query : string) (limit : Z) : M (list hit) :=
  get_connection ;;
  keyword_lookup query limit.

(** [search_keyword] whatever [_get_connection] comes to. *)
Definition search_keyword_from (o : opening) (query : string) (limit : Z)
  : M (list hit) :=
  open_connection o ;;
  keyword_lookup query limit.

(* --------------------------------------------------------------------- *)
(** *** [VectorManager.search] *)

Definition vector_hit (row : vector_row) (m : gmap string string) : hit :=
  {| hit_source := row.1.1.1; hit_content := row.1.1.2; hit_metadata := m;
     hit_distance := Some row.2 |}.

Fixpoint format_vector_rows (rows : list vector_row)
  (seen_content : gset (option string)) (vector_results : list hit)
  : M (list hit) :=
  match rows with
  | [] => ret vector_results
  | row :: rows' =>
      let text := row.1.1.2 in
      if bool_decide (text ∈ seen_content)
      then format_vector_rows rows' seen_content vector_results
      else
        m <- load_metadata row.1.2 ;;
        format_vector_rows rows' ({[ text ]} ∪ seen_content)
                           (vector_results ++ [vector_hit row m])
  end.

(** The [try] statement of [search], on the connection it was handed. *)
Definition vector_lookup (query_vector : list num) (limit : Z)
  : M (list hit) :=
  try_finally
    (try_except
       (bind_integer limit ;;
        rows <- execute (select_vector query_vector limit) ;;
        vector_results <- format_vector_rows rows ∅ [] ;;
        ret (slice_to limit vector_results))
       (fun e =>
          print (ErrorVectorSearch e) ;;
          ret []))
    close.

(** Steps 1 and 2 of [search]: the deduplicated vector result list, when
    [_get_connection] returns a connection. *)
Definition vector_search (query : string) (limit : Z) : M (list hit) :=
  let query_vector := embed_text query in
  get_connection ;;
  vector_lookup query_vector limit.

(** The same, whatever [_get_connection] comes to. *)
Definition vector_search_from (o : opening) (query : string) (limit : Z)
  : M (list hit) :=
  let query_vector := embed_text query in
  open_connection o ;;
  vector_lookup query_vector limit.

(** The strong-match threshold, [0.65]. *)
Definition threshold : Q := 65 # 100.

Definition Qlt_bool (x y : Q) : bool := negb (Qle_bool y x).

(** Step 3 of [search]: the hybrid decision, [keyword_search] being the
    call [self.search_keyword(query, limit)]. *)
Definition hybrid (vector_results : list hit) (keyword_search : M (list hit))
  : M response :=
  match vector_results with
  | [] => ret {| results := []; search_strategy := "no_results" |}
  | top :: _ =>
      match hit_distance top with
      | None => raise KeyError
      | Some top_distance =>
          if Qlt_bool top_distance threshold then
            ret {| results := vector_results;
                   search_strategy := "strong_match" |}
          else
            keyword_results <- keyword_search ;;
            match keyword_results with
            | _ :: _ => ret {| results := keyword_results;
                               search_strategy := "keyword" |}
            | [] => ret {| results := vector_results;
                           search_strategy := "weak_match" |}
            end
      end
  end.

(** [search] when [_get_connection] returns a connection each time. *)
Definition search (query : string) (limit : Z) : M response :=
  vector_results <- vector_search query limit ;;
  hybrid vector_results (search_keyword query limit).

(** [search] whatever its two calls of [_get_connection] come to: [o] is
    the one of [search] itself, [o'] the one of [search_keyword], if the
    decision gets there. *)
Definition search_from (o o' : opening) (query : string) (limit : Z)
  : M response :=
  vector_results <- vector_search_from o query limit ;;
  hybrid vector_results (search_keyword_from o' query limit).

(* --------------------------------------------------------------------- *)
(** *** Vocabulary of the properties *)

(** The world right after [get_connection]. *)
Definition connected (w : world) : world :=
  emit Connect (set_conn (Some (db w)) w).

(** An event that is only printed output. *)
Definition printed (e : event) : Prop :=
  match e with Print _ => True | _ => False end.

(** What a computation between [connect] and [commit] may touch: it leaves
    the committed file and the oracles alone, keeps the connection open,
    only prints, and reports the first statement the engine fails. *)
Definition framed {A} (c : M A) : Prop :=
  forall w r w', c w = (r, w') ->
    db w' = db w /\ faults w' = faults w /\ uuid4 w' = uuid4 w
    /\ (executed w <= executed w')%nat
    /\ (is_Some (conn w) -> is_Some (conn w'))
    /\ (exists evs, trace w' = (trace w ++ evs)%list /\ Forall printed evs)
    /\ (forall k, (executed w <= k < executed w')%nat ->
                  faults w k = true -> r = Raise (StorageFailure k)).

(** How many times a run has committed. *)
Definition commits (t : list event) : nat :=
  length (List.filter (fun e => match e with Commit => true | _ => false end) t).

(** The value of [json.loads(text) if text else {}], or the exception. *)
Definition decoded (text : option string) : result (gmap string string) :=
  match text with
  | None => Ok ∅
  | Some EmptyString => Ok ∅
  | Some t =>
      match json_loads t with
      | Some m => Ok m
      | None => Raise JSONDecodeError
      end
  end.

(** The list the keyword formatting loop builds from [rows]. *)
Fixpoint keyword_hits (rows : list (string * option string * option string))
  : result (list hit) :=
  match rows with
  | [] => Ok []
  | row :: rows' =>
      match decoded row.2 with
      | Raise e => Raise e
      | Ok m =>
          match keyword_hits rows' with
          | Raise e => Raise e
          | Ok hits => Ok (keyword_hit row m :: hits)
          end
      end
  end.

(** The rows the vector formatting loop keeps: the first one for each
    content text not in [seen]. *)
Fixpoint kept_rows (rows : list vector_row) (seen : gset (option string))
  : list vector_row :=
  match rows with
  | [] => []
  | row :: rows' =>
      if bool_decide (row.1.1.2 ∈ seen) then kept_rows rows' seen
      else row :: kept_rows rows' ({[ row.1.1.2 ]} ∪ seen)
  end.

(** The list the vector formatting loop builds from the rows it keeps. *)
Fixpoint vector_hits (rows : list vector_row) : result (list hit) :=
  match rows with
  | [] => Ok []
  | row :: rows' =>
      match decoded row.1.2 with
      | Raise e => Raise e
      | Ok m =>
          match vector_hits rows' with
          | Raise e => Raise e
          | Ok hits => Ok (vector_hit row m :: hits)
          end
      end
  end.

(** The rows the keyword query selects from a store. *)
Definition keyword_rows (query : string) (limit : Z) (s : store)
  : list doc_row :=
  Sql.limit limit
    (List.filter (keyword_where ("%" ++ query ++ "%")) (documents s)).

(** The rows the vector query fetches from a store (none when sqlite-vec
    refuses the query). *)
Definition fetched_rows (query : string) (limit : Z) (s : store)
  : list vector_row :=
  match select_vector (embed_text query) limit s with
  | (Ok rows, _) => rows
  | (Raise _, _) => []
  end.

(** A hit is the dictionary built from a row of the vector query. *)
Definition hit_of_row (h : hit) (row : vector_row) : Prop :=
  hit_source h = row.1.1.1 /\ hit_content h = row.1.1.2
  /\ hit_distance h = Some row.2.

(** A hit is the dictionary built from a row of the document table. *)
Definition hit_of_document (h : hit) (r : doc_row) : Prop :=
  hit_source h = row_source r /\ hit_content h = row_content r
  /\ decoded (row_metadata r) = Ok (hit_metadata h)
  /\ hit_distance h = None.

(** Ascending distance. *)
Definition closer (a b : hit) : Prop :=
  match hit_distance a, hit_distance b with
  | Some x, Some y => (x <= y)%Q
  | _, _ => False
  end.

(** What the read filters promise of a returned dictionary: a source other
    than "Unknown" and a content that is not null and longer than ten
    characters. *)
Definition presentable (h : hit) : Prop :=
  hit_source h <> "Unknown"
  /\ exists c, hit_content h = Some c /\ (10 < PyStr.len c)%Z.

(** The quality filter as a test. *)
Definition admitted (doc : Document) : bool :=
  match quality_filter doc with
  | keep => true
  | drop _ => false
  end.

(** What the view has gained once the loop has gone through a batch. *)
Definition gained (docs : list Document) (view view' : store) : Prop :=
  exists rows vecs,
    documents view' = (documents view ++ rows)%list
    /\ vec_documents view' = (vec_documents view ++ vecs)%list
    /\ map row_rowid rows = map vec_rowid vecs
    /\ map (fun r => (row_source r, row_content r)) rows
       = map (fun d => (source d, Some (content d))) (List.filter admitted docs).

(** Every stored document has exactly one vector entry, under its own
    rowid: the two tables list the same rowids, none of them twice. *)
Definition consistent (s : store) : Prop :=
  map row_rowid (documents s) = map vec_rowid (vec_documents s)
  /\ NoDup (map row_rowid (documents s)).

(** The states of the committed file that [add_documents] can produce from a
    freshly initialised store, whatever the batches, the engine's failures
    and the identifiers drawn. *)
Inductive reachable : store -> Prop :=
| reachable_init : reachable empty_store
| reachable_add (docs : list Document) (w : world) :
    reachable (db w) -> reachable (db (add_documents docs w).2).

(** The row and the vector entry the loop body writes for [doc] on top of
    [view], under identifier [doc_id]. *)
Definition new_row (view : store) (doc_id : string) (doc : Document) : doc_row :=
  {| row_rowid := next_rowid (documents view); row_id := doc_id;
     row_source := source doc; row_content := Some (content doc);
     row_metadata := Some (json_dumps (metadata doc)) |}.

Definition new_vector (view : store) (doc : Document) : vec_row :=
  {| vec_rowid := next_rowid (documents view);
     vec_embedding := embed_text (content doc) |}.

Definition with_document (view : store) (doc_id : string) (doc : Document)
  : store :=
  {| documents := (documents view ++ [new_row view doc_id doc])%list;
     vec_documents := (vec_documents view ++ [new_vector view doc])%list |}.

End Engine.

(* ===================================================================== *)
(** ** The callers of [VectorManager] *)
(* ===================================================================== *)

(** What [datetime.fromtimestamp(float(text)).strftime("%Y-%m-%d %H:%M")]
    comes to: a date, an exception that [format_timestamp] catches
    ([ValueError], [TypeError], [OSError]), or an [OverflowError], which it
    does not. *)
Inductive clock_reading :=
| Rendered (date : string)
| Refused
| Overflowed.

(** The formatting the MCP server leaves to Python: the local clock and
    the two-decimal rendering of a float. *)
Class Presentation := {
  local_time : string -> clock_reading;
  format_2f : Q -> string
}.

(** One call of a worker's [progress_callback]; no worker passes
    [total_documents]. *)
Record progress := {
  progress_status : string;
  progress_text : string;
  progress_processed : option nat
}.

(** The dictionary a worker's [sync] returns: ["documents"], the counts by
    kind, and ["success"]. *)
Record sync_report := {
  report_documents : nat;
  report_breakdown : list (string * nat);
  report_success : bool
}.

Section Callers.
Context `{Collaborators} `{Presentation}.

Notation "x <- c1 ;; c2" := (bind c1 (fun x => c2))
  (at level 100, c1 at next level, right associativity).

(* --------------------------------------------------------------------- *)
(** *** [minna/workers]: the three [sync] methods *)

(** [sum(1 for d in documents if test(d))] *)
Definition count_documents (test : Document -> bool) (documents : list Document)
  : nat :=
  length (List.filter test documents).

(** [needle in hay] on two strings. *)
Fixpoint py_in (needle hay : string) : bool :=
  String.prefix needle hay
  || match hay with
     | EmptyString => false
     | String _ hay' => py_in needle hay'
     end.

(** The shape the three [sync] methods share.  [connector] is what the
    connector's own [sync] came to: the calls it made of the progress
    callback, which is the worker's own, and the list of documents it
    returned or the exception it raised.  [o] is what [_get_connection]
    comes to inside [add_documents].  The calls of the callback are
    returned beside the outcome, in the order they were made.
    [if documents: ... add_documents ... return {...} else: return {...}],
    inside [try: ... except Exception as e: raise]. *)
Definition worker_sync (starting : string) (indexing : nat -> string)
  (breakdown : list Document -> list (string * nat))
  (o : opening) (connector : list progress * result (list Document))
  (w : world)
  : list progress * (result sync_report * world) :=
  let started := {| progress_status := "syncing"; progress_text := starting;
                    progress_processed := None |} in
  let (made, fetched) := connector in
  match fetched with
  | Raise e => (started :: made, (Raise e, w))
  | Ok [] =>
      (started :: made,
       (Ok {| report_documents := 0; report_breakdown := [];
              report_success := true |}, w))
  | Ok documents =>
      let announced :=
        {| progress_status := "indexing";
           progress_text := indexing (length documents);
           progress_processed := Some (length documents) |} in
      match add_documents_from o documents w with
      | (Raise e, w') => (started :: made ++ [announced], (Raise e, w'))%list
      | (Ok _, w') =>
          ((started :: made ++ [announced])%list,
           (Ok {| report_documents := length documents;
                  report_breakdown := breakdown documents;
                  report_success := true |}, w'))
      end
  end.

(** [SlackWorker.sync] *)
Definition slack_worker_sync :=
  worker_sync "Starting Slack sync..."
    (fun n => "Indexing " ++ pretty n ++ " conversations...")
    (fun _ => []).

(** [GoogleWorker.sync] *)
Definition google_worker_sync :=
  worker_sync "Starting Google Workspace sync..."
    (fun n => "Indexing " ++ pretty n ++ " items...")
    (fun documents =>
       [("calendar_events",
         count_documents (fun d => String.eqb (source d) "google_calendar")
                         documents);
        ("emails",
         count_documents (fun d => String.eqb (source d) "gmail") documents)]).

(** [GitHubWorker.sync] *)
Definition github_worker_sync :=
  worker_sync "Starting GitHub sync..."
    (fun n => "Indexing " ++ pretty n ++ " items...")
    (fun documents =>
       [("issues", count_documents (fun d => py_in "issue" (source d)) documents);
        ("pull_requests",
         count_documents (fun d => py_in "pull_request" (source d)) documents);
        ("comments",
         count_documents (fun d => py_in "comment" (source d)) documents)]).

(** [report[key]] *)
Definition report_count (key : string) (r : sync_report) : option nat :=
  snd <$> List.find (fun kv => String.eqb (fst kv) key) (report_breakdown r).

(** The sources the GitHub connector gives its documents. *)
Definition github_sources : list string :=
  ["github_issue_comment"; "github_pr_review_comment"; "github_issue"].

(* --------------------------------------------------------------------- *)
(** *** [minna/mcp_server.py] *)

Definition newline : string := String (ascii_of_nat 10) EmptyString.

(** [text.split(".")[0]] *)
Fixpoint before_dot (text : string) : string :=
  match text with
  | EmptyString => EmptyString
  | String c text' =>
      if Ascii.eqb c "." then EmptyString else String c (before_dot text')
  end.

(** [a or b] on two values that are a string or [None]. *)
Definition or_else (a b : option string) : option string :=
  match a with
  | Some (String _ _) => a
  | _ => b
  end.

(** [a or "literal"] *)
Definition or_literal (a : option string) (literal : string) : string :=
  match a with
  | Some (String c s) => String c s
  | _ => literal
  end.

(** [format_timestamp] on what a metadata dictionary can hold. *)
Definition format_timestamp (ts : option string) : result string :=
  match ts with
  | None => Ok "Unknown"
  | Some text =>
      match local_time (before_dot text) with
      | Rendered date => Ok date
      | Refused => Ok "Unknown"
      | Overflowed => Raise OverflowError
      end
  end.

(** [strategy_labels.get(strategy, strategy)] *)
Definition search_method_of (strategy : string) : string :=
  if String.eqb strategy "strong_match" then "Vector"
  else if String.eqb strategy "keyword" then "Keyword"
  else if String.eqb strategy "weak_match" then "Vector-Weak"
  else if String.eqb strategy "no_results" then "None"
  else strategy.

(** Python's [min] and [max] of two numbers: the first of two equals. *)
Definition py_min (a b : Q) : Q := if Qlt_bool b a then b else a.
Definition py_max (a b : Q) : Q := if Qlt_bool a b then b else a.

(** [max(0.0, min(1.0, 1.0 - distance))], the distance of a dictionary
    without one being [0.0]. *)
Definition relevance (doc : hit) : Q :=
  py_max 0 (py_min 1 (1 - default 0%Q (hit_distance doc))).

(** The f-string of one result. *)
Definition context_block (search_method : string) (doc : hit) : result string :=
  let text := match hit_content doc with Some c => c | None => "None" end in
  let channel :=
    or_literal (or_else (hit_metadata doc !! "channel_name")
                        (hit_metadata doc !! "title")) "General" in
  let timestamp := or_else (hit_metadata doc !! "ts")
                           (hit_metadata doc !! "timestamp") in
  match format_timestamp timestamp with
  | Raise e => Raise e
  | Ok formatted_date =>
      Ok ("### [Source: " ++ hit_source doc ++ "] " ++ channel ++ newline
          ++ "**Date:** " ++ formatted_date ++ newline
          ++ "**Relevance:** " ++ format_2f (relevance doc)
          ++ " (" ++ search_method ++ ")" ++ newline ++ newline
          ++ text ++ newline ++ "---")
  end.

(** [for doc in results: ... markdown_parts.append(block)] *)
Fixpoint context_blocks (search_method : string) (docs : list hit)
  (markdown_parts : list string) : result (list string) :=
  match docs with
  | [] => Ok markdown_parts
  | doc :: docs' =>
      match context_block search_method doc with
      | Raise e => Raise e
      | Ok block =>
          context_blocks search_method docs' (markdown_parts ++ [block])%list
      end
  end.

Definition no_context : string :=
  "No relevant local context found for this query.".

(** [get_context] *)
Definition get_context (query : string) (limit : Z) : M string :=
  result_data <- search query limit ;;
  let search_method := search_method_of (search_strategy result_data) in
  match results result_data with
  | [] => ret no_context
  | _ :: _ =>
      fun w =>
        match context_blocks search_method (results result_data) [] with
        | Raise e => (Raise e, w)
        | Ok markdown_parts =>
            (Ok (String.concat (newline ++ newline) markdown_parts), w)
        end
  end.

(* --------------------------------------------------------------------- *)
(** *** Vocabulary of the further properties *)

(** How many connections a run has opened, and how many it has closed. *)
Definition connects (t : list event) : nat :=
  length (List.filter (fun e => match e with Connect => true | _ => false end) t).

Definition closes (t : list event) : nat :=
  length (List.filter (fun e => match e with Close => true | _ => false end) t).

(** One connection from opening to closing, with nothing but printing in
    between. *)
Definition session (evs : list event) : Prop :=
  exists printing,
    evs = (Connect :: printing ++ [Close])%list /\ Forall printed printing.

(** What the body of [search_keyword]'s [try] comes to in a world: the
    formatted rows, or the first exception. *)
Definition keyword_outcome (query : string) (limit : Z) (w : world)
  : result (list hit) :=
  if Sql.fits_int64 limit then
    if faults w (executed w) then Raise (StorageFailure (executed w))
    else if like_refused ("%" ++ query ++ "%") limit (db w)
    then Raise OperationalError
    else keyword_hits
           (map (fun r => (row_source r, row_content r, row_metadata r))
                (keyword_rows query limit (db w)))
  else Raise OverflowError.

(** The same for the [try] of [search]. *)
Definition vector_outcome (query : string) (limit : Z) (w : world)
  : result (list hit) :=
  if Sql.fits_int64 limit then
    if faults w (executed w) then Raise (StorageFailure (executed w))
    else if knn_refused limit then Raise OperationalError
    else
      match vector_hits (kept_rows (fetched_rows query limit (db w)) ∅) with
      | Ok hits => Ok (take (Z.to_nat limit) hits)
      | Raise e => Raise e
      end
  else Raise OverflowError.

(** The world one lookup leaves behind: its connection opened and closed
    around what it printed, and its one statement counted when the limit
    could be bound. *)
Definition after_lookup (limit : Z) (printing : list event) (w : world)
  : world :=
  {| db := db w; conn := None;
     executed := if Sql.fits_int64 limit then S (executed w) else executed w;
     minted := minted w; faults := faults w; uuid4 := uuid4 w;
     trace := (trace w ++ Connect :: printing ++ [Close])%list |}.

(** The rows and the vector entries a batch of admitted documents leaves,
    when the first of them gets rowid [next] and the [first]-th identifier
    of the generator. *)
Fixpoint batch_rows (next : Z) (ids : nat -> string) (first : nat)
  (docs : list Document) : list doc_row :=
  match docs with
  | [] => []
  | doc :: rest =>
      {| row_rowid := next; row_id := ids first; row_source := source doc;
         row_content := Some (content doc);
         row_metadata := Some (json_dumps (metadata doc)) |}
      :: batch_rows (next + 1) ids (S first) rest
  end.

Fixpoint batch_vectors (next : Z) (docs : list Document) : list vec_row :=
  match docs with
  | [] => []
  | doc :: rest =>
      {| vec_rowid := next; vec_embedding := embed_text (content doc) |}
      :: batch_vectors (next + 1) rest
  end.

(** A worker's [sync], as a function of what [_get_connection] and its
    connector come to. *)
Definition worker : Type :=
  opening -> list progress * result (list Document) -> world ->
  list progress * (result sync_report * world).

(** The calls of the progress callback during a [sync]: the worker's
    "syncing" first, then the connector's, then, if there is one, the
    worker's "indexing" with the number of documents fetched. *)
Definition callbacks (calls made : list progress) (fetched : option nat)
  : Prop :=
  exists started,
    progress_status started = "syncing"
    /\ match fetched with
       | None => calls = started :: made
       | Some n =>
           exists announced,
             calls = (started :: made ++ [announced])%list
             /\ progress_status announced = "indexing"
             /\ progress_processed announced = Some n
       end.

(** What every worker's [sync] does with what its connector came to.  An
    exception of the connector leaves [sync] as it is, with the store
    untouched.  Of a batch the report gives the number fetched, of which
    the store has taken the admitted ones; an empty batch touches
    nothing; and when [add_documents] raises, the exception leaves
    [sync] after the "indexing" callback, with the committed store as it
    was. *)
Definition reports_the_fetched (sync : worker) : Prop :=
  (forall o made e w,
     (sync o (made, Raise e) w).2 = (Raise e, w)
     /\ callbacks (sync o (made, Raise e) w).1 made None)
  /\ forall o made (fetched : list Document) (w : world),
       let run := sync o (made, Ok fetched) w in
       let kept := List.filter admitted fetched in
       match run.2.1 with
       | Ok report =>
           report_documents report = length fetched
           /\ report_success report = true
           /\ length (documents (db run.2.2))
              = (length (documents (db w)) + length kept)%nat
           /\ (length kept <= report_documents report)%nat
           /\ (fetched = [] -> run.2.2 = w /\ callbacks run.1 made None)
           /\ (fetched <> [] ->
               callbacks run.1 made (Some (length fetched)))
       | Raise e =>
           fetched <> []
           /\ (add_documents_from o fetched w).1 = Raise e
           /\ db run.2.2 = db w
           /\ callbacks run.1 made (Some (length fetched))
       end.

(** The first step of [_get_connection] after [sqlite3.connect] that
    raises, if any. *)
Definition or_failure (a b : option exn) : option exn :=
  match a with
  | Some e => Some e
  | None => b
  end.

Definition setup_failure (o : opening) : option exn :=
  or_failure (journal_mode o)
    (or_failure (busy_timeout o)
       (or_failure (enable_load_extension o) (load_extension o))).

(** Between [w] and [w'] one connection was opened and closed again. *)
Definition released (w w' : world) : Prop :=
  conn w' = None
  /\ connects (trace w') = S (connects (trace w))
  /\ closes (trace w') = S (closes (trace w)).

(** Between [w] and [w'] one connection was opened, and nothing else
    happened: it is still open. *)
Definition left_open (w w' : world) : Prop :=
  is_Some (conn w') /\ trace w' = (trace w ++ [Connect])%list
  /\ db w' = db w.

(** How a method that starts with [_get_connection] runs from [w] when
    the steps of that call come to [o]: it raises what [sqlite3.connect]
    raised, with nothing opened; or it raises what a later step raised,
    with the connection left open; or it runs as it does on a connection
    that was returned. *)
Definition opens_as {A} (o : opening) (run returned : result A * world)
  (w : world) : Prop :=
  match connect o, setup_failure o with
  | Some e, _ => run = (Raise e, w)
  | None, Some e => run.1 = Raise e /\ left_open w run.2
  | None, None => run = returned
  end.

End Callers.

(* ===================================================================== *)
(** ** A stub deployment, to run the model on concrete inputs *)
(* ===================================================================== *)

Module Stub.

(** Fixed-point integers (three decimals) in place of numpy's floats,
    character codes in place of a language model, and a codec that knows the
    empty dictionary only. *)
Definition raw_dim : nat := 768.

Definition codes (s : string) : list Z :=
  map (fun c => Z.of_N (N_of_ascii c)) (list_ascii_of_string s).

Definition embed (s : string) : list Z :=
  take raw_dim (codes s ++ replicate raw_dim 0%Z).

Definition sum_squares (v : list Z) : Z := foldr (fun x a => x * x + a)%Z 0%Z v.

Definition distance (a b : list Z) : Q :=
  Z.sqrt (sum_squares (zip_with Z.sub a b)) # 1000.

Definition dumps (m : gmap string string) : string :=
  if bool_decide (m = ∅) then "{}" else "{...}".

Definition loads (s : string) : option (gmap string string) :=
  if String.eqb s "{}" then Some ∅ else None.

Definition collaborators : Collaborators :=
  {| num := Z;
     embed_raw := embed;
     l2_norm := fun v => Z.sqrt (sum_squares v);
     num_is_zero := Z.eqb 0;
     num_div := fun x n => (x * 1000 / n)%Z;
     vec_distance := distance;
     knn_tie_order := reverse;
     knn_tie_order_permutation := reverse_Permutation;
     json_dumps := dumps;
     json_loads := loads |}.

(** A freshly initialised store, a healthy engine, and identifiers
    doc-0, doc-1, ... *)
Definition fresh_world : @world collaborators :=
  {| db := @empty_store collaborators; conn := None; executed := 0; minted := 0;
     faults := fun _ => false;
     uuid4 := fun n => "doc-" ++ pretty n;
     trace := [] |}.

(** The same, except that the engine fails its [k]-th statement. *)
Definition failing_at (k : nat) (w : @world collaborators) : @world collaborators :=
  {| db := db w; conn := conn w; executed := executed w; minted := minted w;
     faults := fun i => Nat.eqb i k; uuid4 := uuid4 w; trace := trace w |}.

Definition doc (src text : string) : Document :=
  {| source := src; content := text; metadata := ∅ |}.

(** The world after [c] has run in [w]. *)
Definition after {A} (c : @M collaborators A) (w : @world collaborators)
  : @world collaborators := (c w).2.

(** The value a call hands back: the list it returned, or no list when it
    raised. *)
Definition answer {A} (r : result (list A) * @world collaborators) : list A :=
  match r.1 with
  | Ok l => l
  | Raise _ => []
  end.

Definition valid : Document :=
  doc "test" "This is a valid document with sufficient length.".
Definition short : Document := doc "test" "Short".
Definition anonymous : Document :=
  doc "Unknown" "This is meaningful content but source is unknown".
Definition greeting : Document := doc "slack" "hello world 123".
Definition worldly : Document := doc "slack" "another Worldly note".
Definition ten : Document := doc "notes" "0123456789".

(** A store seeded with one batch. *)
Definition seeded : @world collaborators :=
  after (@add_documents collaborators
           [valid; short; anonymous; greeting; worldly; ten])
        fresh_world.

(** A query of [n] percent signs: as a pattern it matches every text. *)
Definition percents (n : N) : string :=
  string_of_list_ascii (replicate (N.to_nat n) "%"%char).


(** Three documents labelled as the GitHub connector labels them. *)
Definition github_batch : list Document :=
  [doc "github_issue" "Issue: the login page times out";
   doc "github_issue_comment" "GitHub issue comment by @ann: same here";
   doc "github_pr_review_comment" "PR review comment by @bob: rename this"].

(** Two calls a connector makes of the progress callback. *)
Definition connector_calls : list progress :=
  [{| progress_status := "fetching";
      progress_text := "Discovering repositories...";
      progress_processed := None |};
   {| progress_status := "syncing"; progress_text := "Sync complete";
      progress_processed := Some 3%nat |}].

(** A mail and a calendar event. *)
Definition google_batch : list Document :=
  [doc "gmail" "Subject: quarterly planning notes";
   doc "google_calendar" "Event: planning review on Monday"].

End Stub.

(* ===================================================================== *)
(** ** Properties *)
(* ===================================================================== *)

Section Properties.
Context `{Collaborators}.
Local Open Scope list_scope.

Ltac no_events := exists []; split; [by rewrite app_nil_r | constructor].

Lemma framed_ret {A} (a : A) : framed (ret a).
Proof.
  intros w r w' [= <- <-]. split_and!; auto; try lia; no_events.
Qed.

Lemma framed_raise {A} (e : exn) : framed (@raise _ A e).
Proof.
  intros w r w' [= <- <-]. split_and!; auto; try lia; no_events.
Qed.

Lemma framed_print (m : message) : framed (print m).
Proof.
  intros w r w' [= <- <-]. cbn. split_and!; auto; try lia.
  exists [Print m]. split; [done | by constructor].
Qed.

Lemma framed_fresh_uuid : framed fresh_uuid.
Proof.
  intros w r w' [= <- <-]. cbn. split_and!; auto; try lia; no_events.
Qed.

Lemma framed_execute {A} (run : store -> result A * store) :
  framed (execute run).
Proof.
  intros w r w'. unfold execute.
  destruct (conn w) as [view |] eqn:Hconn.
  - destruct (faults w (executed w)) eqn:Hf.
    + intros [= <- <-]. cbn. split_and!; eauto; try lia; [no_events |].
      intros k Hk _. by replace k with (executed w) by lia.
    + destruct (run view) as [r0 view']. intros [= <- <-]. cbn.
      split_and!; eauto; try lia; [no_events |].
      intros k Hk Hk'. replace k with (executed w) in Hk' by lia. congruence.
  - intros [= <- <-]. split_and!; try done; try lia; no_events.
Qed.

Lemma framed_bind {A B} (c : M A) (k : A -> M B) :
  framed c -> (forall a, framed (k a)) -> framed (bind c k).
Proof.
  intros Hc Hk w r w'. unfold bind.
  destruct (c w) as [[a | e] w1] eqn:Hcw.
  - intros Hkw.
    destruct (Hc _ _ _ Hcw) as (Hdb & Hfl & Hid & Hex & Hcn & (evs & Htr & Hevs) & Hfault).
    destruct (Hk a _ _ _ Hkw) as (Hdb' & Hfl' & Hid' & Hex' & Hcn' & (evs' & Htr' & Hevs') & Hfault').
    repeat split; try congruence; try lia; auto.
    + exists (evs ++ evs'). split; [| by apply Forall_app].
      by rewrite Htr', Htr, app_assoc.
    + intros j Hj Hfj.
      destruct (decide (j < executed w1)%nat) as [Hlt | Hge].
      * specialize (Hfault j ltac:(lia) Hfj). discriminate.
      * apply Hfault'; [lia | congruence].
  - intros [= <- <-].
    destruct (Hc _ _ _ Hcw) as (Hdb & Hfl & Hid & Hex & Hcn & Htr & Hfault).
    split_and!; auto.
    intros j Hj Hfj. specialize (Hfault j Hj Hfj). congruence.
Qed.

Lemma framed_insert_one (doc : Document) (n : nat) : framed (insert_one doc n).
Proof.
  unfold insert_one.
  apply framed_bind; [apply framed_fresh_uuid | intros doc_id].
  apply framed_bind; [apply framed_execute | intros _].
  apply framed_bind; [apply framed_execute | intros [rowid |]].
  - apply framed_bind; [apply framed_execute | intros _; apply framed_ret].
  - apply framed_ret.
Qed.

Lemma framed_add_loop (docs : list Document) :
  forall n, framed (add_loop docs n).
Proof.
  induction docs as [| doc rest IH]; intros n; cbn [add_loop].
  - apply framed_ret.
  - destruct (PyStr.len (PyStr.strip (content doc)) <? 10)%Z.
    + apply framed_bind; [apply framed_print | auto].
    + destruct (String.eqb (source doc) "Unknown").
      * apply framed_bind; [apply framed_print | auto].
      * apply framed_bind; [apply framed_insert_one | auto].
Qed.

(** *** The embedding *)

(** X1.  Whatever the arithmetic, [embed_text] keeps the leading [target_dim]
    components of the raw embedding -- all 512 of them when the model
    supplies at least that many -- and either leaves them as they are (zero
    norm) or divides each by the norm.  How close the norm of the result is
    to one is a matter of floating-point rounding, which the embedding
    leaves to the collaborators. *)
Lemma embed_text_shape (text : string) :
  let truncated := take target_dim (embed_raw text) in
  length (embed_text text) = Nat.min target_dim (length (embed_raw text))
  /\ ((target_dim <= length (embed_raw text))%nat ->
      length (embed_text text) = 512%nat)
  /\ (num_is_zero (l2_norm truncated) = true -> embed_text text = truncated)
  /\ (num_is_zero (l2_norm truncated) = false ->
      embed_text text = map (fun x => num_div x (l2_norm truncated)) truncated).
Proof.
  intros truncated. unfold embed_text. fold truncated.
  assert (Hlen : length truncated
                 = Nat.min target_dim (length (embed_raw text))).
  { subst truncated. apply length_take. }
  destruct (num_is_zero (l2_norm truncated)).
  - split_and!; [done | | done | done].
    intros Hraw. rewrite Hlen. unfold target_dim in *. lia.
  - rewrite length_map. split_and!; [done | | done | done].
    intros Hraw. rewrite Hlen. unfold target_dim in *. lia.
Qed.

(** *** Rowids *)

Lemma next_rowid_above (rows : list doc_row) :
  Forall (fun r => (row_rowid r < next_rowid rows)%Z) rows.
Proof.
  destruct rows as [| r rows]; [constructor |].
  unfold next_rowid.
  set (top := foldr (fun x m => Z.max (row_rowid x) m) (row_rowid r) rows).
  assert (Hr : (row_rowid r <= top)%Z).
  { subst top. induction rows as [| x rows IH]; cbn; lia. }
  assert (Hrows : Forall (fun x => (row_rowid x <= top)%Z) rows).
  { subst top. clear Hr. induction rows as [| x rows IH]; cbn; constructor.
    - lia.
    - eapply Forall_impl; [exact IH |]. cbn. intros; lia. }
  constructor; [lia |].
  eapply Forall_impl; [exact Hrows |]. cbn. intros; lia.
Qed.

Lemma next_rowid_fresh (rows : list doc_row) :
  next_rowid rows ∉ map row_rowid rows.
Proof.
  intros Hin. apply list_elem_of_fmap in Hin as (r & Heq & Hr).
  pose proof (next_rowid_above rows) as Habove.
  rewrite Forall_forall in Habove. specialize (Habove r Hr). lia.
Qed.

Lemma consistent_with_document (view : store) (doc_id : string) (doc : Document) :
  consistent view -> consistent (with_document view doc_id doc).
Proof.
  intros [Hsame Hnodup]. unfold consistent, with_document. cbn.
  rewrite !map_app. cbn. split; [by rewrite Hsame |].
  apply NoDup_app. split_and!; [done | | apply NoDup_singleton].
  intros x Hx Hx'. apply list_elem_of_singleton in Hx'. subst x.
  by apply next_rowid_fresh in Hx.
Qed.

(** *** One admitted candidate *)

Lemma find_after_fresh {A} (f : A -> bool) (l : list A) (x : A) :
  existsb f l = false -> f x = true -> List.find f (l ++ [x]) = Some x.
Proof.
  induction l as [| y l IH]; cbn; intros Hl Hx.
  - by rewrite Hx.
  - apply orb_false_iff in Hl as [Hy Hl]. rewrite Hy. auto.
Qed.

(** When the loop body succeeds for a candidate, it has written exactly
    one document row and one vector entry under the same new rowid, found
    the row again, and counted it. *)
Lemma insert_one_ok (doc : Document) (n n' : nat) (w w' : world) (view : store) :
  conn w = Some view ->
  insert_one doc n w = (Ok n', w') ->
  n' = S n
  /\ conn w' = Some (with_document view (uuid4 w (minted w)) doc)
  /\ existsb (fun r => String.eqb (row_id r) (uuid4 w (minted w)))
             (documents view) = false.
Proof.
  intros Hconn. unfold insert_one, bind, fresh_uuid, execute. cbn.
  rewrite Hconn.
  destruct (faults w (executed w)); [discriminate |].
  unfold insert_document.
  destruct (existsb _ (documents view)) eqn:Hfresh; [discriminate |].
  cbn. destruct (faults w (S (executed w))); [discriminate |].
  cbn. rewrite (find_after_fresh _ _ _ Hfresh) by apply String.eqb_refl.
  cbn. destruct (faults w (S (S (executed w)))); [discriminate |].
  unfold insert_vector. cbn.
  destruct (existsb _ (vec_documents view)); [discriminate |].
  cbn. intros [= <- <-]. auto.
Qed.

(** *** The loop over a batch *)

Lemma add_loop_ok (docs : list Document) :
  forall (n n' : nat) (w w' : world) (view : store),
    conn w = Some view ->
    add_loop docs n w = (Ok n', w') ->
    exists view',
      conn w' = Some view'
      /\ gained docs view view'
      /\ n' = (n + length (List.filter admitted docs))%nat
      /\ (consistent view -> consistent view').
Proof.
  induction docs as [| doc rest IH]; intros n n' w w' view Hconn; cbn [add_loop].
  - intros [= <- <-]. exists view. split_and!; [done | | cbn; lia | done].
    exists [], []. cbn. by rewrite !app_nil_r.
  - assert (Hadm : admitted doc
                   = negb (PyStr.len (PyStr.strip (content doc)) <? 10)%Z
                     && negb (String.eqb (source doc) "Unknown")).
    { unfold admitted, quality_filter. by repeat case_match. }
    unfold gained. cbn [List.filter]. rewrite Hadm. clear Hadm.
    destruct (PyStr.len (PyStr.strip (content doc)) <? 10)%Z.
    { unfold bind, print. intros Hrest.
      eapply IH in Hrest; [| exact Hconn]. exact Hrest. }
    destruct (String.eqb (source doc) "Unknown").
    { unfold bind, print. intros Hrest.
      eapply IH in Hrest; [| exact Hconn]. exact Hrest. }
    unfold bind at 1.
    destruct (insert_one doc n w) as [[n1 | e] w1] eqn:Hone; [| discriminate].
    intros Hrest.
    destruct (insert_one_ok _ _ _ _ _ _ Hconn Hone) as (-> & Hconn1 & _).
    destruct (IH _ _ _ _ _ Hconn1 Hrest)
      as (view' & Hconn' & (rows & vecs & Hd & Hv & Hids & Hsrc) & -> & Hcons).
    exists view'. split_and!.
    + done.
    + exists (new_row view (uuid4 w (minted w)) doc :: rows),
             (new_vector view doc :: vecs).
      cbn in Hd, Hv. rewrite <- !app_assoc in Hd, Hv. cbn in Hd, Hv.
      split_and!; auto; cbn; congruence.
    + cbn [negb andb length]. lia.
    + intros Hview. apply Hcons. by apply consistent_with_document.
Qed.

(** *** [add_documents]: the transaction *)

Lemma commits_app (t u : list event) : commits (t ++ u) = (commits t + commits u)%nat.
Proof. unfold commits. by rewrite List.filter_app, length_app. Qed.

Lemma commits_printed (evs : list event) : Forall printed evs -> commits evs = 0%nat.
Proof.
  induction 1 as [| e evs He _ IH]; [done |].
  by destruct e.
Qed.

(** The three ways a non-empty batch can end, read off the code: the loop
    raised; the loop went through and [commit] failed; both succeeded. *)
Lemma add_documents_cases (doc : Document) (rest : list Document) (w : world) :
  let docs := doc :: rest in
  exists (r : result nat) (wl : world) (evs : list event) (view : store),
    add_loop docs 0 (connected w) = (r, wl)
    /\ db wl = db w /\ faults wl = faults w /\ conn wl = Some view
    /\ trace wl = trace w ++ Connect :: evs /\ Forall printed evs
    /\ (executed w <= executed wl)%nat
    /\ (forall k, (executed w <= k < executed wl)%nat -> faults w k = true ->
                  r = Raise (StorageFailure k))
    /\ match r with
       | Raise e =>
           insert_batch docs (connected w) = (Raise e, wl)
           /\ add_documents docs w
              = (Raise e,
                 emit Close (set_conn None
                   (emit (Print (ErrorAddingDocuments e))
                      (emit Rollback (set_conn (Some (db wl)) wl)))))
       | Ok n =>
           if faults w (executed wl) then
             insert_batch docs (connected w)
             = (Raise (StorageFailure (executed wl)), tick wl)
             /\ add_documents docs w
                = (Raise (StorageFailure (executed wl)),
                   emit Close (set_conn None
                     (emit (Print (ErrorAddingDocuments
                                     (StorageFailure (executed wl))))
                        (emit Rollback
                           (set_conn (Some (db wl)) (tick wl))))))
           else
             add_documents docs w
             = (Ok None,
                emit Close (set_conn None
                  (emit (Print (SuccessfullyAdded n))
                     (emit Commit (set_db view (tick wl))))))
       end.
Proof.
  intros docs.
  destruct (add_loop docs 0 (connected w)) as [r wl] eqn:Hloop.
  destruct (framed_add_loop docs 0 _ _ _ Hloop)
    as (Hdb & Hfl & _ & Hex & Hcn & (evs & Htr & Hevs) & Hfault).
  cbn in Hdb, Hfl, Hex, Hcn, Htr, Hfault.
  destruct Hcn as [view Hview]; [by eexists |].
  exists r, wl, evs, view. split_and!; try done.
  { rewrite Htr, <- app_assoc. done. }
  destruct r as [n | e].
  - destruct (faults w (executed wl)) eqn:Hf.
    + assert (Hbatch : insert_batch docs (connected w)
                       = (Raise (StorageFailure (executed wl)), tick wl)).
      { unfold insert_batch, bind. rewrite Hloop. unfold commit.
        by rewrite Hview, Hfl, Hf. }
      split; [exact Hbatch |].
      unfold add_documents, insert_transaction, docs. fold docs.
      unfold bind at 1. unfold get_connection. fold (connected w).
      unfold try_finally, try_except. rewrite Hbatch.
      unfold bind, rollback, print, raise, close. cbn. by rewrite Hview.
    + unfold add_documents, insert_transaction, docs. fold docs.
      unfold bind at 1. unfold get_connection. fold (connected w).
      unfold try_finally, try_except, insert_batch, bind. rewrite Hloop.
      unfold commit. rewrite Hview, Hfl, Hf. done.
  - assert (Hbatch : insert_batch docs (connected w) = (Raise e, wl)).
    { unfold insert_batch, bind. by rewrite Hloop. }
    split; [exact Hbatch |].
    unfold add_documents, insert_transaction, docs. fold docs.
    unfold bind at 1. unfold get_connection. fold (connected w).
    unfold try_finally, try_except. rewrite Hbatch.
    unfold bind, rollback, print, raise, close. by rewrite Hview.
Qed.

(** C3.  A batch is all-or-nothing.  Whenever [add_documents] ends in an
    exception -- in particular whenever the engine fails one of the
    statements it executes, insert or commit -- the committed file is what
    it was before the call, the transaction was rolled back and never
    committed, the connection is closed, and the exception that reaches the
    caller is the one the [try] body raised.  When it ends normally on a
    non-empty batch, it committed exactly once, after the loop had gone
    through every candidate, and the committed file is the view the loop
    built: every admitted candidate's row and vector entry together. *)
Theorem add_documents_all_or_nothing (docs : list Document) (w : world) :
  let (r, w') := add_documents docs w in
  (forall k, (executed w <= k < executed w')%nat -> faults w k = true ->
             r = Raise (StorageFailure k))
  /\ match r with
     | Raise e =>
         db w' = db w /\ conn w' = None
         /\ commits (trace w') = commits (trace w)
         /\ exists evs wl,
              insert_batch docs (connected w) = (Raise e, wl)
              /\ trace w' = trace w ++ Connect :: evs
                            ++ [Rollback; Print (ErrorAddingDocuments e); Close]
              /\ Forall printed evs
     | Ok v =>
         v = None
         /\ match docs with
            | [] => w' = w
            | _ :: _ =>
                conn w' = None
                /\ commits (trace w') = S (commits (trace w))
                /\ gained docs (db w) (db w')
                /\ exists n wl evs,
                     add_loop docs 0 (connected w) = (Ok n, wl)
                     /\ conn wl = Some (db w')
                     /\ trace w' = trace w ++ Connect :: evs
                                   ++ [Commit; Print (SuccessfullyAdded n); Close]
                     /\ Forall printed evs
            end
     end.
Proof.
  destruct docs as [| doc rest].
  { cbn. split; [intros; lia | done]. }
  destruct (add_documents_cases doc rest w)
    as (r & wl & evs & view & Hloop & Hdb & Hfl & Hview & Htr & Hevs & Hex
        & Hfault & Hend).
  assert (Hcommits : commits (trace wl) = commits (trace w)).
  { rewrite Htr, commits_app. cbn [commits List.filter length].
    change (commits (trace w) + commits evs = commits (trace w))%nat.
    rewrite (commits_printed _ Hevs). lia. }
  destruct r as [n | e].
  - destruct (faults w (executed wl)) eqn:Hf.
    + destruct Hend as [Hbatch ->]. cbn -[commits]. split.
      * intros k Hk Hfk.
        destruct (decide (k < executed wl)%nat) as [Hlt | Hge].
        -- by specialize (Hfault k ltac:(lia) Hfk).
        -- by replace k with (executed wl) by lia.
      * split_and!; [done | done | |].
        -- rewrite !commits_app. cbn. lia.
        -- exists evs, (tick wl). split_and!; [done | | done].
           rewrite Htr, <- !app_assoc. done.
    + rewrite Hend. cbn -[commits]. split.
      * intros k Hk Hfk.
        destruct (decide (k < executed wl)%nat) as [Hlt | Hge].
        -- by specialize (Hfault k ltac:(lia) Hfk).
        -- replace k with (executed wl) in Hfk by lia. congruence.
      * assert (Hopen : conn (connected w) = Some (db w)) by done.
        destruct (add_loop_ok _ _ _ _ _ _ Hopen Hloop)
          as (view' & Hview' & Hgained & _ & _).
        assert (view' = view) as -> by congruence.
        split_and!; [done | done | | done |].
        -- rewrite !commits_app. cbn. lia.
        -- exists n, wl, evs. split_and!; [done | done | | done].
           rewrite Htr, <- !app_assoc. done.
  - destruct Hend as [Hbatch ->]. cbn -[commits]. split.
    + intros k Hk Hfk. specialize (Hfault k Hk Hfk). congruence.
    + split_and!; [done | done | |].
      * rewrite !commits_app. cbn. lia.
      * exists evs, wl. split_and!; [done | | done].
        rewrite Htr, <- !app_assoc. done.
Qed.

(** *** [add_documents]: what a call leaves behind *)

Lemma add_documents_raise (docs : list Document) (w w' : world) (e : exn) :
  add_documents docs w = (Raise e, w') -> db w' = db w.
Proof.
  destruct docs as [| doc rest]; [discriminate |].
  destruct (add_documents_cases doc rest w)
    as (r & wl & evs & view & _ & Hdb & _ & _ & _ & _ & _ & _ & Hend).
  destruct r as [n | e0].
  - destruct (faults w (executed wl)).
    + destruct Hend as [_ ->]. by intros [= _ <-].
    + by rewrite Hend.
  - destruct Hend as [_ ->]. by intros [= _ <-].
Qed.

Lemma add_documents_raise_left (docs : list Document) (w : world) (e : exn) :
  (add_documents docs w).1 = Raise e -> db (add_documents docs w).2 = db w.
Proof.
  destruct (add_documents docs w) as [r w'] eqn:Hrun. cbn. intros ->.
  by eapply add_documents_raise.
Qed.

Lemma add_documents_ok (doc : Document) (rest : list Document)
  (w w' : world) (v : option Z) :
  add_documents (doc :: rest) w = (Ok v, w') ->
  v = None
  /\ exists n wl evs,
       add_loop (doc :: rest) 0 (connected w) = (Ok n, wl)
       /\ conn wl = Some (db w')
       /\ trace w' = trace w ++ Connect :: evs
                     ++ [Commit; Print (SuccessfullyAdded n); Close]
       /\ Forall printed evs.
Proof.
  destruct (add_documents_cases doc rest w)
    as (r & wl & evs & view & Hloop & _ & _ & Hview & Htr & Hevs & _ & _ & Hend).
  destruct r as [n | e0].
  - destruct (faults w (executed wl)).
    + destruct Hend as [_ ->]. discriminate.
    + rewrite Hend. intros [= <- <-]. split; [done |].
      exists n, wl, evs. cbn. split_and!; [done | done | | done].
      rewrite Htr, <- !app_assoc. done.
  - destruct Hend as [_ ->]. discriminate.
Qed.

(** One call either leaves the committed file alone or adds, together, the
    rows and the vector entries of the candidates it admitted. *)
Lemma add_documents_step (docs : list Document) (w : world) :
  let s' := db (add_documents docs w).2 in
  (s' = db w \/ gained docs (db w) s')
  /\ (consistent (db w) -> consistent s').
Proof.
  cbn zeta. destruct (add_documents docs w) as [[v | e] w'] eqn:Hrun; cbn.
  - destruct docs as [| doc rest].
    { injection Hrun as _ <-. auto. }
    apply add_documents_ok in Hrun as (_ & n & wl & evs & Hloop & Hview & _ & _).
    assert (Hopen : conn (connected w) = Some (db w)) by done.
    destruct (add_loop_ok _ _ _ _ _ _ Hopen Hloop)
      as (view' & Hview' & Hgained & _ & Hcons).
    assert (view' = db w') as -> by congruence. auto.
  - apply add_documents_raise in Hrun. rewrite Hrun. auto.
Qed.

Lemma gained_lengths (docs : list Document) (view view' : store) :
  gained docs view view' ->
  exists rows vecs,
    documents view' = documents view ++ rows
    /\ vec_documents view' = vec_documents view ++ vecs
    /\ length rows = length (List.filter admitted docs)
    /\ length vecs = length (List.filter admitted docs).
Proof.
  intros (rows & vecs & Hd & Hv & Hids & Hsrc). exists rows, vecs.
  apply (f_equal length) in Hids, Hsrc. rewrite !length_map in Hids, Hsrc.
  split_and!; auto; lia.
Qed.

(** C4 (as amended).  [add_documents] hands no value back: whenever it
    returns, it returns [None].  The number of documents inserted -- the
    candidates that passed the quality filter, each written as one row and
    one vector entry -- is only printed, in the closing line of a
    successful non-empty batch.  An empty batch returns at once: nothing
    printed, nothing written. *)
Theorem add_documents_prints_the_count (docs : list Document) (w : world) :
  let (r, w') := add_documents docs w in
  match r with
  | Raise _ => db w' = db w
  | Ok v =>
      v = None
      /\ match docs with
         | [] => w' = w
         | _ :: _ =>
             exists evs rows vecs,
               trace w' = trace w ++ evs
                          ++ [Print (SuccessfullyAdded (length rows)); Close]
               /\ documents (db w') = documents (db w) ++ rows
               /\ vec_documents (db w') = vec_documents (db w) ++ vecs
               /\ length rows = length (List.filter admitted docs)
               /\ length vecs = length rows
         end
  end.
Proof.
  destruct (add_documents docs w) as [[v | e] w'] eqn:Hrun.
  - destruct docs as [| doc rest].
    { by injection Hrun as <- <-. }
    apply add_documents_ok in Hrun
      as (-> & n & wl & evs & Hloop & Hview & Htr & _).
    split; [done |].
    assert (Hopen : conn (connected w) = Some (db w)) by done.
    destruct (add_loop_ok _ _ _ _ _ _ Hopen Hloop)
      as (view' & Hview' & Hgained & -> & _).
    assert (view' = db w') as -> by congruence.
    apply gained_lengths in Hgained as (rows & vecs & Hd & Hv & Hrows & Hvecs).
    exists (Connect :: evs ++ [Commit]), rows, vecs.
    split_and!; [| done | done | done | lia].
    rewrite Htr, Hrows. cbn. by rewrite <- !app_assoc.
  - by apply add_documents_raise in Hrun.
Qed.

(** *** The invariant of the two tables *)

Lemma same_key_same_element {A} (key : A -> Z) (l : list A) (x y : A) :
  NoDup (map key l) -> x ∈ l -> y ∈ l -> key x = key y -> x = y.
Proof.
  induction l as [| a l IH]; cbn; intros Hnodup Hx Hy Hkey.
  - by apply not_elem_of_nil in Hx.
  - apply NoDup_cons in Hnodup as [Ha Hnodup].
    apply elem_of_cons in Hx as [-> | Hx], Hy as [-> | Hy]; auto.
    + exfalso. apply Ha. rewrite Hkey. by apply list_elem_of_fmap_2.
    + exfalso. apply Ha. rewrite <- Hkey. by apply list_elem_of_fmap_2.
Qed.

Lemma consistent_paired (s : store) :
  consistent s ->
  (forall r, r ∈ documents s ->
     exists v, v ∈ vec_documents s /\ vec_rowid v = row_rowid r
               /\ forall v', v' ∈ vec_documents s ->
                             vec_rowid v' = row_rowid r -> v' = v)
  /\ (forall v, v ∈ vec_documents s ->
        exists r, r ∈ documents s /\ row_rowid r = vec_rowid v
                  /\ forall r', r' ∈ documents s ->
                                row_rowid r' = vec_rowid v -> r' = r).
Proof.
  intros [Hsame Hnodup]. split.
  - intros r Hr.
    assert (Hin : row_rowid r ∈ map vec_rowid (vec_documents s)).
    { rewrite <- Hsame. by apply list_elem_of_fmap_2. }
    apply list_elem_of_fmap in Hin as (v & Hv & Hvin).
    exists v. split_and!; [done | done |].
    intros v' Hv' Hkey. rewrite Hsame in Hnodup.
    eapply same_key_same_element; eauto. congruence.
  - intros v Hv.
    assert (Hin : vec_rowid v ∈ map row_rowid (documents s)).
    { rewrite Hsame. by apply list_elem_of_fmap_2. }
    apply list_elem_of_fmap in Hin as (r & Hr & Hrin).
    exists r. split_and!; [done | done |].
    intros r' Hr' Hkey.
    eapply same_key_same_element; eauto. congruence.
Qed.

(** C9.  In every state of the committed file that [add_documents] can
    reach from a freshly initialised store, the document table and the
    vector index list the same rowids, none twice: each stored document has
    exactly one vector entry, under its own rowid, and no vector entry is
    an orphan.  The two are written in the same transaction: a call either
    leaves the file as it was or adds the rows and the vector entries of
    its admitted candidates together. *)
Theorem reachable_store_is_paired (s : store) :
  reachable s ->
  consistent s
  /\ (forall r, r ∈ documents s ->
        exists v, v ∈ vec_documents s /\ vec_rowid v = row_rowid r
                  /\ forall v', v' ∈ vec_documents s ->
                                vec_rowid v' = row_rowid r -> v' = v)
  /\ (forall v, v ∈ vec_documents s ->
        exists r, r ∈ documents s /\ row_rowid r = vec_rowid v
                  /\ forall r', r' ∈ documents s ->
                                row_rowid r' = vec_rowid v -> r' = r)
  /\ (forall docs w, db w = s ->
        let s' := db (add_documents docs w).2 in
        s' = s \/ gained docs s s').
Proof.
  intros Hreach.
  assert (Hcons : consistent s).
  { induction Hreach as [| docs w _ IH].
    - split; [done | constructor].
    - by apply add_documents_step. }
  split; [exact Hcons |].
  destruct (consistent_paired s Hcons) as [Hdocs Hvecs].
  split_and!; [exact Hdocs | exact Hvecs |].
  intros docs w <-. apply add_documents_step.
Qed.

(** *** The quality filter *)

(** C5.  The verdict on a candidate follows two rules in order, the first
    that applies deciding: too short when the stripped content has fewer
    than ten characters, else unknown source when the source is "Unknown",
    else keep.  The loop does what the verdict says: on a drop it prints the
    reason and goes on with the rest of the batch in the same state and with
    the same count -- no statement is executed and nothing is raised; only a
    kept candidate reaches the inserts. *)
Theorem admission_first_match_wins (doc : Document) :
  (quality_filter doc = drop too_short
   <-> (PyStr.len (PyStr.strip (content doc)) < 10)%Z)
  /\ (quality_filter doc = drop unknown_source
      <-> (10 <= PyStr.len (PyStr.strip (content doc)))%Z
          /\ source doc = "Unknown")
  /\ (quality_filter doc = keep
      <-> (10 <= PyStr.len (PyStr.strip (content doc)))%Z
          /\ source doc <> "Unknown")
  /\ forall (rest : list Document) (n : nat) (w : world),
       match quality_filter doc with
       | drop too_short =>
           add_loop (doc :: rest) n w
           = add_loop rest n
               (emit (Print (DroppedTooShort
                               (default "Unknown" (metadata doc !! "channel_name"))
                               (PyStr.prefix_of 20 (PyStr.strip (content doc)))))
                     w)
       | drop unknown_source =>
           add_loop (doc :: rest) n w
           = add_loop rest n (emit (Print DroppedUnknownSource) w)
       | keep =>
           add_loop (doc :: rest) n w
           = bind (insert_one doc n) (fun n' => add_loop rest n') w
       end.
Proof.
  unfold quality_filter. cbn [add_loop].
  destruct (Z.ltb_spec (PyStr.len (PyStr.strip (content doc))) 10) as [Hlen | Hlen].
  - split_and!; [split; [done | done] | split; [done | lia] | split; [done | lia] |].
    done.
  - destruct (String.eqb_spec (source doc) "Unknown") as [Hsrc | Hsrc].
    + split_and!; [split; [done | lia] | done | split; [done | tauto] |].
      done.
    + split_and!; [split; [done | lia] | split; [done | tauto] | done |].
      done.
Qed.

(** *** The formatting loops *)

Lemma load_metadata_decoded (text : option string) (w : world) :
  load_metadata text w = (decoded text, w).
Proof.
  unfold load_metadata, decoded.
  destruct text as [[| c t] |]; try done.
  by destruct (json_loads (String c t)).
Qed.

Lemma format_keyword_rows_run
  (rows : list (string * option string * option string)) :
  forall (acc : list hit) (w : world),
    format_keyword_rows rows acc w
    = (match keyword_hits rows with
       | Ok hits => Ok (acc ++ hits)
       | Raise e => Raise e
       end, w).
Proof.
  induction rows as [| row rows IH]; intros acc w; cbn.
  - by rewrite app_nil_r.
  - unfold bind. rewrite load_metadata_decoded.
    destruct (decoded row.2) as [m | e]; [| done].
    rewrite IH. destruct (keyword_hits rows) as [hits | e]; [| done].
    by rewrite <- app_assoc.
Qed.

Lemma format_vector_rows_run (rows : list vector_row) :
  forall (seen : gset (option string)) (acc : list hit) (w : world),
    format_vector_rows rows seen acc w
    = (match vector_hits (kept_rows rows seen) with
       | Ok hits => Ok (acc ++ hits)
       | Raise e => Raise e
       end, w).
Proof.
  induction rows as [| row rows IH]; intros seen acc w; cbn.
  - by rewrite app_nil_r.
  - destruct (bool_decide (row.1.1.2 ∈ seen)); [apply IH |].
    unfold bind. rewrite load_metadata_decoded. cbn.
    destruct (decoded row.1.2) as [m | e]; [| done].
    rewrite IH.
    destruct (vector_hits (kept_rows rows ({[row.1.1.2]} ∪ seen))) as [hits | e];
      [| done].
    by rewrite <- app_assoc.
Qed.

Lemma keyword_hits_ok (docs : list doc_row) (hits : list hit) :
  keyword_hits (map (fun r => (row_source r, row_content r, row_metadata r)) docs)
  = Ok hits ->
  Forall2 hit_of_document hits docs.
Proof.
  revert hits. induction docs as [| r docs IH]; intros hits; cbn.
  - intros [= <-]. constructor.
  - destruct (decoded (row_metadata r)) as [m | e] eqn:Hm; [| discriminate].
    destruct (keyword_hits _) as [hs | e]; [| discriminate].
    intros [= <-]. constructor; [| by apply IH].
    by split_and!.
Qed.

Lemma vector_hits_ok (rows : list vector_row) (hits : list hit) :
  vector_hits rows = Ok hits -> Forall2 hit_of_row hits rows.
Proof.
  revert hits. induction rows as [| row rows IH]; intros hits; cbn.
  - intros [= <-]. constructor.
  - destruct (decoded row.1.2) as [m | e]; [| discriminate].
    destruct (vector_hits rows) as [hs | e]; [| discriminate].
    intros [= <-]. constructor; [| by apply IH].
    by split_and!.
Qed.

(** *** The two sub-searches always answer *)

(** [search_keyword] never raises and never writes.  Its answer is the
    empty list or the formatted selection; it is the formatted selection
    whenever the limit fits, the engine does not fail the query, the
    pattern is not refused and every selected metadata text decodes, and
    the empty list whenever one of these fails. *)
Lemma search_keyword_run (query : string) (limit : Z) (w : world) :
  let rows := map (fun r => (row_source r, row_content r, row_metadata r))
                  (keyword_rows query limit (db w)) in
  exists hits w',
    search_keyword query limit w = (Ok hits, w')
    /\ db w' = db w
    /\ (hits = [] \/ keyword_hits rows = Ok hits)
    /\ (Sql.fits_int64 limit = true -> faults w (executed w) = false ->
        like_refused ("%" ++ query ++ "%") limit (db w) = false ->
        forall hs, keyword_hits rows = Ok hs -> hits = hs)
    /\ (Sql.fits_int64 limit = false \/ faults w (executed w) = true
        \/ like_refused ("%" ++ query ++ "%") limit (db w) = true
        \/ (exists e, keyword_hits rows = Raise e) ->
        hits = []).
Proof.
  intros rows. unfold search_keyword, keyword_lookup.
  unfold bind at 1. unfold get_connection. fold (connected w).
  unfold try_finally, try_except, bind at 1, bind_integer.
  destruct (Sql.fits_int64 limit) eqn:Hfits.
  - unfold ret at 1. unfold bind at 1, execute.
    cbn [connected conn emit set_conn executed faults].
    destruct (faults w (executed w)) eqn:Hf.
    + cbn. eexists _, _. split_and!; [done | done | by left | done | done].
    + unfold select_keyword. cbn [db tick set_conn emit].
      destruct (like_refused _ limit (db w)) eqn:Hrefused.
      { cbn. eexists _, _. split_and!; [done | done | by left | done | done]. }
      rewrite format_keyword_rows_run.
      fold (keyword_rows query limit (db w)). fold rows.
      destruct (keyword_hits rows) as [hs | e] eqn:Hhits; cbn.
      * eexists _, _. split_and!; [done | done | by right | |].
        -- by intros _ _ _ hs' [= <-].
        -- intros [| [| [| [e He]]]]; done.
      * eexists _, _. split_and!; [done | done | by left | done | done].
  - cbn. eexists _, _. split_and!; [done | done | by left | done | done].
Qed.

(** [vector_search] never raises and never writes.  Its answer is the
    empty list or the leading part of the formatted list of kept rows; it
    is the latter whenever the limit fits, the engine does not fail the
    query and every metadata text of a kept row decodes. *)
Lemma vector_search_run (query : string) (limit : Z) (w : world) :
  let rows := kept_rows (fetched_rows query limit (db w)) ∅ in
  exists hits w',
    vector_search query limit w = (Ok hits, w')
    /\ db w' = db w
    /\ (hits = []
        \/ (0 <= limit)%Z /\ exists hs, vector_hits rows = Ok hs
                                       /\ hits = take (Z.to_nat limit) hs)
    /\ (Sql.fits_int64 limit = true -> faults w (executed w) = false ->
        (0 <= limit)%Z ->
        forall hs, vector_hits rows = Ok hs -> hits = take (Z.to_nat limit) hs).
Proof.
  intros rows. unfold vector_search, vector_lookup. cbn zeta.
  unfold bind at 1. unfold get_connection. fold (connected w).
  unfold try_finally, try_except, bind at 1, bind_integer.
  destruct (Sql.fits_int64 limit) eqn:Hfits.
  - unfold ret at 1. unfold bind at 1, execute.
    cbn [connected conn emit set_conn executed faults].
    destruct (faults w (executed w)) eqn:Hf.
    + cbn. eexists _, _. split_and!; [done | done | by left | done].
    + subst rows. unfold fetched_rows, select_vector. cbn [db tick set_conn emit].
      destruct (knn_refused limit) eqn:Hrefused.
      * cbn. eexists _, _. split_and!; [done | done | by left |].
        intros _ _ _ hs [= <-]. by rewrite take_nil.
      * assert (Hpos : (0 <= limit)%Z).
        { unfold knn_refused in Hrefused.
          apply orb_false_iff in Hrefused as [Hneg _].
          by apply Z.ltb_ge in Hneg. }
        unfold bind. rewrite format_vector_rows_run. cbn [app].
        destruct (vector_hits _) as [hs | e] eqn:Hhits; cbn.
        -- unfold slice_to. destruct (Z.leb_spec 0 limit); [| lia].
           eexists _, _. split_and!; [done | done | |].
           ++ right. split; [done |]. by exists hs.
           ++ by intros _ _ _ hs' [= <-].
        -- eexists _, _. split_and!; [done | done | by left | done].
  - cbn. eexists _, _. split_and!; [done | done | by left | done].
Qed.

(** *** [ORDER BY distance] *)

Lemma elem_of_insert_by {A} (key : A -> Q) (x y : A) (l : list A) :
  y ∈ insert_by key x l <-> y = x \/ y ∈ l.
Proof.
  induction l as [| z l IH]; cbn.
  - rewrite list_elem_of_singleton. split; [auto |].
    intros [-> | Hin]; [done | by apply not_elem_of_nil in Hin].
  - destruct (Qle_bool (key x) (key z)).
    + by rewrite elem_of_cons.
    + rewrite !elem_of_cons, IH. tauto.
Qed.

Lemma elem_of_order_by {A} (key : A -> Q) (y : A) (l : list A) :
  y ∈ order_by key l <-> y ∈ l.
Proof.
  induction l as [| x l IH]; cbn; [done |].
  rewrite elem_of_insert_by, elem_of_cons, IH. tauto.
Qed.

Lemma insert_by_sorted {A} (key : A -> Q) (x : A) (l : list A) :
  StronglySorted (fun a b => key a <= key b)%Q l ->
  StronglySorted (fun a b => key a <= key b)%Q (insert_by key x l).
Proof.
  induction 1 as [| z l Hsorted IH Hz]; cbn.
  - repeat constructor.
  - destruct (Qle_bool (key x) (key z)) eqn:Hle.
    + apply Qle_bool_iff in Hle. constructor.
      * by constructor.
      * constructor; [done |].
        eapply Forall_impl; [exact Hz |]. cbn. intros b Hb.
        by apply Qle_trans with (key z).
    + assert (Hzx : (key z <= key x)%Q).
      { apply Qlt_le_weak, Qnot_le_lt. intros Hxz.
        apply Qle_bool_iff in Hxz. congruence. }
      constructor; [exact IH |].
      apply Forall_forall. intros b Hb.
      apply elem_of_insert_by in Hb as [-> | Hb]; [done |].
      rewrite Forall_forall in Hz. auto.
Qed.

Lemma order_by_sorted {A} (key : A -> Q) (l : list A) :
  StronglySorted (fun a b => key a <= key b)%Q (order_by key l).
Proof.
  induction l as [| x l IH]; cbn; [constructor | by apply insert_by_sorted].
Qed.

Lemma sorted_sublist {A} (R : A -> A -> Prop) (k l : list A) :
  k `sublist_of` l -> StronglySorted R l -> StronglySorted R k.
Proof.
  induction 1 as [| x k l Hsub IH | x k l Hsub IH]; intros Hsorted.
  - constructor.
  - apply StronglySorted_inv in Hsorted as [Hl Hx].
    constructor; [auto |].
    apply Forall_forall. intros y Hy. rewrite Forall_forall in Hx.
    apply Hx. by eapply elem_of_sublist.
  - apply StronglySorted_inv in Hsorted as [Hl _]. auto.
Qed.

(** *** The rows the deduplication keeps *)

Lemma kept_rows_sublist (rows : list vector_row) :
  forall seen, kept_rows rows seen `sublist_of` rows.
Proof.
  induction rows as [| row rows IH]; intros seen; cbn; [constructor |].
  destruct (bool_decide (row.1.1.2 ∈ seen)).
  - by apply sublist_cons.
  - by apply sublist_skip.
Qed.

Lemma kept_rows_unseen (rows : list vector_row) :
  forall seen row, row ∈ kept_rows rows seen -> row.1.1.2 ∉ seen.
Proof.
  induction rows as [| r rows IH]; intros seen row; cbn.
  - intros Hin. by apply not_elem_of_nil in Hin.
  - destruct (bool_decide_reflect (r.1.1.2 ∈ seen)) as [Hseen | Hseen].
    + apply IH.
    + intros [-> | Hin]%elem_of_cons; [done |].
      apply IH in Hin. set_solver.
Qed.

Lemma kept_rows_distinct (rows : list vector_row) :
  forall seen, NoDup (map (fun r : vector_row => r.1.1.2) (kept_rows rows seen)).
Proof.
  induction rows as [| r rows IH]; intros seen; cbn; [constructor |].
  destruct (bool_decide (r.1.1.2 ∈ seen)); [apply IH |].
  cbn. constructor; [| apply IH].
  intros (r' & Heq & Hin)%list_elem_of_fmap.
  apply kept_rows_unseen in Hin. set_solver.
Qed.

(** In a list in ascending order of distance, a kept row is the closest of
    the rows with its content. *)
Lemma kept_rows_closest (rows : list vector_row) :
  StronglySorted (fun a b => row_distance a <= row_distance b)%Q rows ->
  forall seen row row',
    row ∈ kept_rows rows seen -> row' ∈ rows ->
    row'.1.1.2 = row.1.1.2 ->
    (row_distance row <= row_distance row')%Q.
Proof.
  induction 1 as [| r rows Hsorted IH Hr]; intros seen row row'; cbn.
  - intros Hin. by apply not_elem_of_nil in Hin.
  - destruct (bool_decide_reflect (r.1.1.2 ∈ seen)) as [Hseen | Hseen].
    + intros Hin [-> | Hin']%elem_of_cons Hsame.
      * apply kept_rows_unseen in Hin. congruence.
      * eauto.
    + intros [-> | Hin]%elem_of_cons [-> | Hin']%elem_of_cons Hsame.
      * apply Qle_refl.
      * rewrite Forall_forall in Hr. auto.
      * apply kept_rows_unseen in Hin. set_solver.
      * eauto.
Qed.

(** Every content fetched is the content of a kept row, unless it had been
    seen already. *)
Lemma kept_rows_cover (rows : list vector_row) :
  forall seen row,
    row ∈ rows ->
    row.1.1.2 ∈ seen
    \/ row.1.1.2 ∈ map (fun r : vector_row => r.1.1.2) (kept_rows rows seen).
Proof.
  induction rows as [| r rows IH]; intros seen row; cbn.
  - intros Hin. by apply not_elem_of_nil in Hin.
  - destruct (bool_decide_reflect (r.1.1.2 ∈ seen)) as [Hseen | Hseen].
    + intros [-> | Hin]%elem_of_cons; [by left | by apply IH].
    + intros [-> | Hin]%elem_of_cons; [right; cbn; by left |].
      destruct (IH ({[r.1.1.2]} ∪ seen) row Hin) as [Hs | Hk].
      * apply elem_of_union in Hs as [Hs | Hs]; [| by left].
        apply elem_of_singleton in Hs. right. cbn. rewrite Hs. by left.
      * right. cbn. by right.
Qed.

(** *** The rows the vector query fetches *)

Lemma elem_of_distinct (rows : list vector_row) (row : vector_row) :
  row ∈ distinct rows -> row ∈ rows.
Proof.
  induction rows as [| r rows IH]; cbn; [done |].
  intros [-> | Hin]%elem_of_cons; [by left |].
  right. apply IH. apply list_elem_of_In in Hin. apply filter_In in Hin as [Hin _].
  by apply list_elem_of_In.
Qed.

Lemma fetched_rows_sorted (query : string) (limit : Z) (s : store) :
  StronglySorted (fun a b => row_distance a <= row_distance b)%Q
                 (fetched_rows query limit s).
Proof.
  unfold fetched_rows, select_vector.
  destruct (knn_refused limit); [constructor | apply order_by_sorted].
Qed.

Lemma fetched_rows_readable (query : string) (limit : Z) (s : store)
  (row : vector_row) :
  row ∈ fetched_rows query limit s ->
  exists d, d ∈ documents s /\ readable d = true
            /\ row.1.1.1 = row_source d /\ row.1.1.2 = row_content d.
Proof.
  unfold fetched_rows, select_vector.
  destruct (knn_refused limit).
  { intros Hin. by apply not_elem_of_nil in Hin. }
  intros Hin%elem_of_order_by%elem_of_distinct.
  unfold join_documents in Hin.
  apply list_elem_of_In, in_flat_map in Hin as (m & _ & Hin).
  apply in_map_iff in Hin as (d & <- & Hd).
  apply filter_In in Hd as [Hd Hpass].
  apply andb_true_iff in Hpass as [_ Hreadable].
  exists d. split_and!; [by apply list_elem_of_In | done | done | done].
Qed.

Lemma c_str_shorter (s : string) :
  (String.length (Sql.c_str s) <= String.length s)%nat.
Proof.
  induction s as [| c s IH]; cbn; [lia |].
  destruct (N_of_ascii c =? 0)%N; cbn; lia.
Qed.

Lemma readable_presentable (d : doc_row) (h : hit) :
  readable d = true ->
  hit_source h = row_source d -> hit_content h = row_content d ->
  presentable h.
Proof.
  unfold readable, presentable. intros Hd -> ->.
  destruct (row_content d) as [c |]; [| discriminate].
  apply andb_true_iff in Hd as [Hlen Hsrc].
  split.
  - intros Heq. rewrite Heq in Hsrc. discriminate.
  - exists c. split; [done |].
    apply Z.ltb_lt in Hlen. unfold Sql.length in Hlen. unfold PyStr.len.
    pose proof (c_str_shorter c). lia.
Qed.

Lemma keyword_rows_readable (query : string) (limit : Z) (s : store)
  (r : doc_row) :
  r ∈ keyword_rows query limit s -> r ∈ documents s /\ readable r = true.
Proof.
  unfold keyword_rows, Sql.limit. intros Hin.
  assert (Hfilter : r ∈ List.filter (keyword_where ("%" ++ query ++ "%"))
                                   (documents s)).
  { destruct (limit <? 0)%Z; [done |].
    eapply elem_of_sublist; [exact Hin | apply sublist_take]. }
  apply list_elem_of_In, filter_In in Hfilter as [Hr Hwhere].
  apply andb_true_iff in Hwhere as [_ Hreadable].
  split; [by apply list_elem_of_In | done].
Qed.

Lemma Forall2_partner {A B} (P : A -> B -> Prop) (l : list A) (k : list B)
  (x : A) :
  Forall2 P l k -> x ∈ l -> exists y, y ∈ k /\ P x y.
Proof.
  induction 1 as [| a b l k Hab _ IH]; intros Hx.
  - by apply not_elem_of_nil in Hx.
  - apply elem_of_cons in Hx as [-> | Hx].
    + exists b. split; [by left | done].
    + destruct (IH Hx) as (y & Hy & Hxy). exists y. split; [by right | done].
Qed.

(** What comes back from [search_keyword] passed the read filter and has
    no distance. *)
Lemma search_keyword_hits (query : string) (limit : Z) (w : world) :
  exists hits w',
    search_keyword query limit w = (Ok hits, w')
    /\ db w' = db w
    /\ Forall presentable hits
    /\ Forall (fun h => hit_distance h = None) hits.
Proof.
  destruct (search_keyword_run query limit w)
    as (hits & w' & Hrun & Hdb & Hhits & _).
  exists hits, w'. split_and!; [done | done | |].
  - destruct Hhits as [-> | Hhits]; [constructor |].
    apply keyword_hits_ok in Hhits.
    apply Forall_forall. intros h Hh.
    destruct (Forall2_partner _ _ _ _ Hhits Hh) as (r & Hr & Hsrc & Hc & _ & _).
    apply keyword_rows_readable in Hr as [_ Hr].
    by eapply readable_presentable.
  - destruct Hhits as [-> | Hhits]; [constructor |].
    apply keyword_hits_ok in Hhits.
    apply Forall_forall. intros h Hh.
    by destruct (Forall2_partner _ _ _ _ Hhits Hh) as (r & _ & _ & _ & _ & Hnone).
Qed.

(** What comes back from [vector_search] are the dictionaries of a leading
    part of the kept rows. *)
Lemma vector_search_hits (query : string) (limit : Z) (w : world) :
  exists hits w' rows,
    vector_search query limit w = (Ok hits, w')
    /\ db w' = db w
    /\ rows `sublist_of` kept_rows (fetched_rows query limit (db w)) ∅
    /\ Forall2 hit_of_row hits rows
    /\ ((0 <= limit)%Z -> (length hits <= Z.to_nat limit)%nat).
Proof.
  destruct (vector_search_run query limit w)
    as (hits & w' & Hrun & Hdb & Hhits & _).
  destruct Hhits as [-> | (Hlimit & hs & Hhs & ->)].
  - exists [], w', []. split_and!; [done | done | | constructor | cbn; lia].
    apply sublist_nil_l.
  - exists (take (Z.to_nat limit) hs), w',
      (take (Z.to_nat limit) (kept_rows (fetched_rows query limit (db w)) ∅)).
    split_and!; [done | done | apply sublist_take | |].
    + by apply Forall2_take, vector_hits_ok.
    + intros _. rewrite length_take. lia.
Qed.

Lemma hits_of_rows_contents (hits : list hit) (rows : list vector_row) :
  Forall2 hit_of_row hits rows ->
  map hit_content hits = map (fun r : vector_row => r.1.1.2) rows.
Proof.
  induction 1 as [| h r hits rows (_ & Hc & _) _ IH]; cbn; [done |].
  by rewrite Hc, IH.
Qed.

Lemma hits_of_rows_sorted (hits : list hit) (rows : list vector_row) :
  Forall2 hit_of_row hits rows ->
  StronglySorted (fun a b => row_distance a <= row_distance b)%Q rows ->
  StronglySorted closer hits.
Proof.
  induction 1 as [| h r hits rows Hhr Hrest IH]; intros Hsorted.
  - constructor.
  - apply StronglySorted_inv in Hsorted as [Hrows Hr].
    constructor; [auto |].
    apply Forall_forall. intros h' Hh'.
    destruct (Forall2_partner _ _ _ _ Hrest Hh') as (r' & Hr' & _ & _ & Hd').
    destruct Hhr as (_ & _ & Hd).
    unfold closer. rewrite Hd, Hd'.
    rewrite Forall_forall in Hr. by apply Hr.
Qed.

(** *** [search]: the decision *)

(** The hybrid step by cases, read off the code. *)
Lemma search_cases (query : string) (limit : Z) (w : world) :
  exists vector_results w1,
    vector_search query limit w = (Ok vector_results, w1)
    /\ match vector_results with
       | [] =>
           search query limit w
           = (Ok {| results := []; search_strategy := "no_results" |}, w1)
       | top :: _ =>
           exists top_distance,
             hit_distance top = Some top_distance
             /\ if Qlt_bool top_distance threshold then
                  search query limit w
                  = (Ok {| results := vector_results;
                           search_strategy := "strong_match" |}, w1)
                else
                  exists keyword_results w2,
                    search_keyword query limit w1 = (Ok keyword_results, w2)
                    /\ match keyword_results with
                       | [] =>
                           search query limit w
                           = (Ok {| results := vector_results;
                                    search_strategy := "weak_match" |}, w2)
                       | _ :: _ =>
                           search query limit w
                           = (Ok {| results := keyword_results;
                                    search_strategy := "keyword" |}, w2)
                       end
       end.
Proof.
  destruct (vector_search_hits query limit w)
    as (hits & w1 & rows & Hrun & _ & _ & Hof & _).
  exists hits, w1. split; [done |].
  unfold search, hybrid, bind. rewrite Hrun.
  destruct Hof as [| top r hits rows (_ & _ & Hd) _]; [done |].
  exists r.2. split; [done |]. rewrite Hd.
  destruct (Qlt_bool r.2 threshold); [done |].
  destruct (search_keyword_hits query limit w1) as (kr & w2 & Hkw & _).
  exists kr, w2. split; [done |]. rewrite Hkw. by destruct kr.
Qed.

Lemma Qlt_bool_iff (x y : Q) : Qlt_bool x y = true <-> (x < y)%Q.
Proof.
  unfold Qlt_bool. rewrite negb_true_iff. split.
  - intros Hle. apply Qnot_le_lt. intros Hyx.
    apply Qle_bool_iff in Hyx. congruence.
  - intros Hlt. destruct (Qle_bool y x) eqn:Hle; [| done].
    apply Qle_bool_iff in Hle. by apply Qlt_not_le in Hlt.
Qed.

(** The vector result list in full: it never fails to come back, it holds
    no content twice, at most [limit] entries, in ascending order of
    distance, each the closest fetched row of its content, each passing the
    read filter. *)
Lemma vector_search_profile (query : string) (limit : Z) (w : world) :
  exists hits w',
    vector_search query limit w = (Ok hits, w')
    /\ db w' = db w
    /\ NoDup (map hit_content hits)
    /\ ((0 <= limit)%Z -> (length hits <= Z.to_nat limit)%nat)
    /\ StronglySorted closer hits
    /\ (forall h, h ∈ hits ->
          exists row,
            row ∈ fetched_rows query limit (db w) /\ hit_of_row h row
            /\ forall row', row' ∈ fetched_rows query limit (db w) ->
                            row'.1.1.2 = row.1.1.2 ->
                            (row_distance row <= row_distance row')%Q)
    /\ Forall presentable hits.
Proof.
  destruct (vector_search_hits query limit w)
    as (hits & w' & rows & Hrun & Hdb & Hsub & Hof & Hlen).
  pose proof (fetched_rows_sorted query limit (db w)) as Hsorted.
  pose proof (kept_rows_sublist (fetched_rows query limit (db w)) ∅) as Hkept.
  assert (Hbest : forall h, h ∈ hits ->
            exists row,
              row ∈ fetched_rows query limit (db w) /\ hit_of_row h row
              /\ forall row', row' ∈ fetched_rows query limit (db w) ->
                              row'.1.1.2 = row.1.1.2 ->
                              (row_distance row <= row_distance row')%Q).
  { intros h Hh.
    destruct (Forall2_partner _ _ _ _ Hof Hh) as (row & Hrow & Hhrow).
    assert (Hrow' : row ∈ kept_rows (fetched_rows query limit (db w)) ∅)
      by (by eapply elem_of_sublist).
    exists row. split_and!; [by eapply elem_of_sublist | done |].
    intros row' Hin Hsame. by eapply kept_rows_closest. }
  exists hits, w'. split_and!; [done | done | | done | | done |].
  - rewrite (hits_of_rows_contents _ _ Hof).
    eapply sublist_NoDup; [apply kept_rows_distinct |].
    by apply fmap_sublist.
  - eapply hits_of_rows_sorted; [exact Hof |].
    eapply sorted_sublist; [| exact Hsorted]. by etrans.
  - apply Forall_forall. intros h Hh.
    destruct (Hbest h Hh) as (row & Hrow & (Hsrc & Hc & _) & _).
    apply fetched_rows_readable in Hrow as (d & _ & Hd & Hs & Hcd).
    eapply readable_presentable; [exact Hd | congruence | congruence].
Qed.

(** C1.  [search] always ends in one of four outcomes, tried in this
    order.  With [vector_results] the deduplicated vector result list: if it
    is empty, the strategy is "no_results" and the results are empty;
    otherwise, if the distance of its first entry is below 0.65, the
    strategy is "strong_match" and the results are that list as it is;
    otherwise the keyword search is run, and if it returns at least one
    row the strategy is "keyword" and the results are the keyword rows,
    none of which has a distance; otherwise the strategy is "weak_match"
    and the results are the vector result list. *)
Theorem search_outcomes (query : string) (limit : Z) (w : world) :
  exists vector_results w1,
    vector_search query limit w = (Ok vector_results, w1)
    /\ match vector_results with
       | [] =>
           search query limit w
           = (Ok {| results := []; search_strategy := "no_results" |}, w1)
       | top :: others =>
           exists top_distance,
             hit_distance top = Some top_distance
             /\ Forall (closer top) others
             /\ ((top_distance < threshold)%Q ->
                 search query limit w
                 = (Ok {| results := vector_results;
                          search_strategy := "strong_match" |}, w1))
             /\ (~ (top_distance < threshold)%Q ->
                 exists keyword_results w2,
                   search_keyword query limit w1 = (Ok keyword_results, w2)
                   /\ Forall (fun h => hit_distance h = None) keyword_results
                   /\ (keyword_results <> [] ->
                       search query limit w
                       = (Ok {| results := keyword_results;
                                search_strategy := "keyword" |}, w2))
                   /\ (keyword_results = [] ->
                       search query limit w
                       = (Ok {| results := vector_results;
                                search_strategy := "weak_match" |}, w2)))
       end.
Proof.
  destruct (search_cases query limit w) as (hits & w1 & Hrun & Hcases).
  destruct (vector_search_profile query limit w)
    as (hits' & w1' & Hrun' & _ & _ & _ & Hsorted & _).
  assert (hits' = hits) as -> by congruence.
  exists hits, w1. split; [done |].
  destruct hits as [| top others]; [done |].
  destruct Hcases as (d & Hd & Hcases). exists d.
  apply StronglySorted_inv in Hsorted as [_ Htop].
  split_and!; [done | done | |].
  - intros Hlt%Qlt_bool_iff. by rewrite Hlt in Hcases.
  - intros Hge. destruct (Qlt_bool d threshold) eqn:Hlt.
    { by apply Qlt_bool_iff in Hlt. }
    destruct Hcases as (kr & w2 & Hkw & Hend).
    destruct (search_keyword_hits query limit w1)
      as (kr' & w2' & Hkw' & _ & _ & Hnone).
    assert (kr' = kr) as -> by congruence.
    exists kr, w2. split_and!; [done | done | |].
    + by destruct kr.
    + by intros ->.
Qed.

Lemma search_presentable (query : string) (limit : Z) (w : world) :
  exists answer w',
    search query limit w = (Ok answer, w')
    /\ Forall presentable (results answer).
Proof.
  destruct (search_cases query limit w) as (hits & w1 & Hrun & Hcases).
  destruct (vector_search_profile query limit w)
    as (hits' & w1' & Hrun' & _ & _ & _ & _ & _ & Hok).
  assert (hits' = hits) as -> by congruence.
  destruct hits as [| top others].
  { eexists _, _. split; [exact Hcases | constructor]. }
  destruct Hcases as (d & Hd & Hcases).
  destruct (Qlt_bool d threshold).
  { eexists _, _. split; [exact Hcases | done]. }
  destruct Hcases as (kr & w2 & Hkw & Hend).
  destruct (search_keyword_hits query limit w1)
    as (kr' & w2' & Hkw' & _ & Hkok & _).
  assert (kr' = kr) as -> by congruence.
  destruct kr as [| k kr].
  - eexists _, _. split; [exact Hend | done].
  - eexists _, _. split; [exact Hend | done].
Qed.

(** C8.  Whatever the state of the store -- reachable or not, with rows
    that should never have been written or without -- and whatever the
    query and the limit, every row that [search_keyword] or [search] returns
    has a source other than "Unknown" and a content that is not null and
    longer than ten characters. *)
Theorem read_paths_filter (query : string) (limit : Z) (w : world) :
  (exists hits w',
     search_keyword query limit w = (Ok hits, w')
     /\ Forall presentable hits)
  /\ (exists answer w',
        search query limit w = (Ok answer, w')
        /\ Forall presentable (results answer)).
Proof.
  split.
  - destruct (search_keyword_hits query limit w)
      as (hits & w' & Hrun & _ & Hok & _).
    by exists hits, w'.
  - apply search_presentable.
Qed.

Lemma vector_hits_total (rows : list vector_row) :
  (forall row, row ∈ rows -> exists m, decoded row.1.2 = Ok m) ->
  exists hits, vector_hits rows = Ok hits.
Proof.
  induction rows as [| row rows IH]; intros Hall; cbn.
  - by exists [].
  - destruct (Hall row ltac:(by left)) as [m ->].
    destruct IH as [hits ->].
    { intros r Hr. apply Hall. by right. }
    by eexists.
Qed.

(** C7.  The vector result list [search] builds holds no content text
    twice; each entry is the dictionary of a fetched row that is the
    closest of the fetched rows with its content (the first occurrence in
    ascending order of distance); the list is in ascending order of
    distance; and for a non-negative limit it has at most [limit] entries.
    The cut comes after the deduplication: when the query goes through
    (the limit fits, the engine does not fail it, the metadata decode), the
    list is the leading [limit] entries of a duplicate-free, ascending list
    in which every fetched content occurs. *)
Theorem vector_results_deduplicated (query : string) (limit : Z) (w : world) :
  exists hits w',
    vector_search query limit w = (Ok hits, w')
    /\ NoDup (map hit_content hits)
    /\ (forall h, h ∈ hits ->
          exists row,
            row ∈ fetched_rows query limit (db w) /\ hit_of_row h row
            /\ forall row', row' ∈ fetched_rows query limit (db w) ->
                            row'.1.1.2 = row.1.1.2 ->
                            (row_distance row <= row_distance row')%Q)
    /\ ((0 <= limit)%Z -> (length hits <= Z.to_nat limit)%nat)
    /\ StronglySorted closer hits
    /\ (Sql.fits_int64 limit = true -> faults w (executed w) = false ->
        (0 <= limit)%Z ->
        (forall row, row ∈ fetched_rows query limit (db w) ->
                     exists m, decoded row.1.2 = Ok m) ->
        exists full,
          hits = take (Z.to_nat limit) full
          /\ NoDup (map hit_content full)
          /\ StronglySorted closer full
          /\ forall row, row ∈ fetched_rows query limit (db w) ->
                         row.1.1.2 ∈ map hit_content full).
Proof.
  destruct (vector_search_profile query limit w)
    as (hits & w' & Hrun & _ & Hnodup & Hlen & Hsorted & Hbest & _).
  exists hits, w'. split_and!; [done | done | done | done | done |].
  intros Hfits Hf Hlimit Hdecode.
  destruct (vector_search_run query limit w)
    as (hits' & w'' & Hrun' & _ & _ & Hexact).
  assert (hits' = hits) as -> by congruence.
  pose proof (kept_rows_sublist (fetched_rows query limit (db w)) ∅) as Hkept.
  destruct (vector_hits_total (kept_rows (fetched_rows query limit (db w)) ∅))
    as [full Hfull].
  { intros row Hrow. apply Hdecode. by eapply elem_of_sublist. }
  pose proof (vector_hits_ok _ _ Hfull) as Hof.
  exists full. split_and!.
  - by apply Hexact.
  - rewrite (hits_of_rows_contents _ _ Hof). apply kept_rows_distinct.
  - eapply hits_of_rows_sorted; [exact Hof |].
    eapply sorted_sublist; [exact Hkept | apply fetched_rows_sorted].
  - intros row Hrow. rewrite (hits_of_rows_contents _ _ Hof).
    destruct (kept_rows_cover _ ∅ row Hrow) as [Hseen | Hin]; [| done].
    by apply not_elem_of_empty in Hseen.
Qed.

(** *** LIKE and substrings *)

Lemma c_str_nul_free (s : string) : Sql.nul_free s = true -> Sql.c_str s = s.
Proof.
  induction s as [| c s IH]; cbn; [done |].
  intros [Hc Hs]%andb_true_iff. apply negb_true_iff in Hc. rewrite Hc.
  by rewrite IH.
Qed.

Lemma literal_nul_free (s : string) : Sql.literal s = true -> Sql.nul_free s = true.
Proof.
  induction s as [| c s IH]; cbn; [done |].
  intros [[_ Hc]%andb_true_iff Hs]%andb_true_iff. rewrite Hc. auto.
Qed.

Lemma nul_free_append (s t : string) :
  Sql.nul_free (s ++ t)%string = Sql.nul_free s && Sql.nul_free t.
Proof.
  induction s as [| c s IH]; [done |].
  change (String c s ++ t)%string with (String c (s ++ t)%string).
  cbn [Sql.nul_free]. by rewrite IH, andb_assoc.
Qed.

Lemma like_match_percent (s : string) : Sql.like_match "%" s = true.
Proof.
  cbn. induction s as [| c s IH]; [done |]. cbn. exact IH.
Qed.

Lemma like_match_literal_prefix (q s : string) :
  Sql.literal q = true ->
  Sql.like_match (q ++ "%")%string s = Sql.starts_with_caseless q s.
Proof.
  revert s. induction q as [| a q IH]; intros s Hq.
  - change ("" ++ "%")%string with "%". apply like_match_percent.
  - cbn in Hq.
    apply andb_true_iff in Hq as [Hq Hrest].
    apply andb_true_iff in Hq as [Hq _].
    apply andb_true_iff in Hq as [Hpct Hund].
    apply negb_true_iff in Hpct, Hund.
    change (String a q ++ "%")%string with (String a (q ++ "%")%string).
    cbn [Sql.like_match Sql.starts_with_caseless].
    rewrite Hpct, Hund. destruct s as [| c s]; [done |].
    cbn [orb]. by rewrite IH.
Qed.

Lemma like_match_literal (q s : string) :
  Sql.literal q = true ->
  Sql.like_match ("%" ++ q ++ "%")%string s = Sql.contains_caseless q s.
Proof.
  intros Hq.
  change ("%" ++ q ++ "%")%string with (String "%" (q ++ "%")%string).
  cbn [Sql.like_match]. change (Ascii.eqb "%" "%") with true. cbn iota.
  induction s as [| c s IH].
  - cbn [Sql.contains_caseless]. by rewrite like_match_literal_prefix.
  - cbn [Sql.contains_caseless]. rewrite <- IH.
    by rewrite like_match_literal_prefix.
Qed.

(** For a query without wildcards, LIKE is the substring test. *)
Lemma like_is_substring (q c : string) :
  Sql.literal q = true -> Sql.nul_free c = true ->
  Sql.like c ("%" ++ q ++ "%")%string = Sql.contains_caseless q c.
Proof.
  intros Hq Hc. unfold Sql.like.
  rewrite (c_str_nul_free c Hc), c_str_nul_free.
  - by apply like_match_literal.
  - change ("%" ++ q ++ "%")%string with (String "%" (q ++ "%")%string).
    cbn [Sql.nul_free]. rewrite nul_free_append, (literal_nul_free q Hq). done.
Qed.

(** *** [search_keyword]: what it selects *)

Lemma keyword_hits_total (docs : list doc_row) :
  (forall r, r ∈ docs -> exists m, decoded (row_metadata r) = Ok m) ->
  exists hits,
    keyword_hits (map (fun r => (row_source r, row_content r, row_metadata r))
                      docs) = Ok hits.
Proof.
  induction docs as [| r docs IH]; intros Hall; cbn.
  - by exists [].
  - destruct (Hall r ltac:(by left)) as [m ->].
    destruct IH as [hits ->].
    { intros r' Hr'. apply Hall. by right. }
    by eexists.
Qed.

Lemma keyword_hits_undecodable (docs : list doc_row) (r : doc_row) :
  r ∈ docs -> decoded (row_metadata r) = Raise JSONDecodeError ->
  keyword_hits (map (fun r => (row_source r, row_content r, row_metadata r))
                    docs) = Raise JSONDecodeError.
Proof.
  induction docs as [| d docs IH]; intros Hin Hbad.
  - by apply elem_of_nil in Hin.
  - cbn. apply elem_of_cons in Hin as [<- | Hin].
    + by rewrite Hbad.
    + destruct (decoded (row_metadata d)) as [m | e] eqn:Hd.
      * by rewrite (IH Hin Hbad).
      * unfold decoded in Hd.
        destruct (row_metadata d) as [[| c t] |]; try done.
        destruct (json_loads _); congruence.
Qed.

Lemma keyword_rows_length (query : string) (limit : Z) (s : store) :
  (0 <= limit)%Z -> (length (keyword_rows query limit s) <= Z.to_nat limit)%nat.
Proof.
  intros Hlimit. unfold keyword_rows, Sql.limit.
  destruct (Z.ltb_spec limit 0); [lia |]. rewrite length_take. lia.
Qed.

Lemma keyword_rows_match (query : string) (limit : Z) (s : store) (r : doc_row) :
  r ∈ keyword_rows query limit s ->
  exists c, row_content r = Some c
            /\ Sql.like c ("%" ++ query ++ "%")%string = true.
Proof.
  unfold keyword_rows, Sql.limit. intros Hin.
  assert (Hfilter : r ∈ List.filter (keyword_where ("%" ++ query ++ "%"))
                                   (documents s)).
  { destruct (limit <? 0)%Z; [done |].
    eapply elem_of_sublist; [exact Hin | apply sublist_take]. }
  apply list_elem_of_In, filter_In in Hfilter as [_ Hwhere].
  unfold keyword_where in Hwhere.
  destruct (row_content r) as [c |]; [| done].
  apply andb_true_iff in Hwhere as [Hlike _]. by exists c.
Qed.

Lemma like_literal (q c : string) :
  Sql.literal q = true ->
  Sql.like c ("%" ++ q ++ "%")%string
  = Sql.contains_caseless q (Sql.c_str c).
Proof.
  intros Hq. unfold Sql.like. rewrite c_str_nul_free.
  - by apply like_match_literal.
  - change ("%" ++ q ++ "%")%string with (String "%" (q ++ "%")%string).
    cbn [Sql.nul_free]. rewrite nul_free_append, (literal_nul_free q Hq). done.
Qed.

(** C6 (as amended).  [search_keyword] always answers with a list of
    dictionaries without a distance, at most [limit] of them when [limit]
    is not negative.  Each is a stored row that passes the read filter and
    whose content matches the pattern made of the query between two [%]
    under LIKE; for a query free of wildcards and NUL, matching that
    pattern is the same as the text of the content before its first NUL
    containing the query up to ASCII case.  When the lookup fails -- the
    limit does not fit a 64-bit integer, the engine fails the query, the
    pattern is over 50000 bytes long and a row is scanned, or the metadata
    of a selected row do not decode -- the answer is the empty list.  When
    it does not fail, the answer is, in storage order, the leading [limit]
    rows of those that match (all of them under a negative limit). *)
Theorem search_keyword_selects_like (query : string) (limit : Z) (w : world) :
  let pattern := ("%" ++ query ++ "%")%string in
  exists hits w',
    search_keyword query limit w = (Ok hits, w')
    /\ Forall (fun h => hit_distance h = None) hits
    /\ ((0 <= limit)%Z -> (length hits <= Z.to_nat limit)%nat)
    /\ (forall h, h ∈ hits ->
          exists r c,
            r ∈ documents (db w) /\ hit_of_document h r
            /\ readable r = true /\ row_content r = Some c
            /\ Sql.like c pattern = true)
    /\ (Sql.literal query = true ->
        forall c, Sql.like c pattern
                  = Sql.contains_caseless query (Sql.c_str c))
    /\ (Sql.fits_int64 limit = false \/ faults w (executed w) = true
        \/ like_refused pattern limit (db w) = true
        \/ (exists r, r ∈ keyword_rows query limit (db w)
                      /\ decoded (row_metadata r) = Raise JSONDecodeError) ->
        hits = [])
    /\ (Sql.fits_int64 limit = true -> faults w (executed w) = false ->
        like_refused pattern limit (db w) = false ->
        (forall r, r ∈ keyword_rows query limit (db w) ->
                   exists m, decoded (row_metadata r) = Ok m) ->
        Forall2 hit_of_document hits (keyword_rows query limit (db w))).
Proof.
  intros pattern. subst pattern.
  destruct (search_keyword_run query limit w)
    as (hits & w' & Hrun & _ & Hhits & Hexact & Hfailed).
  destruct (search_keyword_hits query limit w)
    as (hits' & w'' & Hrun' & _ & _ & Hnone).
  assert (hits' = hits) as -> by congruence.
  exists hits, w'. split_and!; [done | done | | | | |].
  - intros Hlimit. destruct Hhits as [-> | Hhits]; [cbn; lia |].
    apply keyword_hits_ok, Forall2_length in Hhits. rewrite Hhits.
    by apply keyword_rows_length.
  - intros h Hh. destruct Hhits as [-> | Hhits].
    { by apply not_elem_of_nil in Hh. }
    apply keyword_hits_ok in Hhits.
    destruct (Forall2_partner _ _ _ _ Hhits Hh) as (r & Hr & Hof).
    destruct (keyword_rows_match _ _ _ _ Hr) as (c & Hc & Hlike).
    destruct (keyword_rows_readable _ _ _ _ Hr) as [Hstored Hreadable].
    by exists r, c.
  - intros Hq c. by apply like_literal.
  - intros Hfails. apply Hfailed.
    destruct Hfails as [| [| [| (r & Hr & Hbad)]]]; auto.
    do 3 right. exists JSONDecodeError.
    by apply (keyword_hits_undecodable _ r).
  - intros Hfits Hf Hpattern Hdecode.
    destruct (keyword_hits_total _ Hdecode) as [hs Hhs].
    rewrite (Hexact Hfits Hf Hpattern hs Hhs). by apply keyword_hits_ok.
Qed.

(** *** A single admitted candidate on a healthy engine *)

Lemma vector_rowid_free (view : store) :
  consistent view ->
  existsb (fun v => (vec_rowid v =? next_rowid (documents view))%Z)
          (vec_documents view) = false.
Proof.
  intros [Hsame _].
  destruct (existsb _ (vec_documents view)) eqn:Hex; [| done].
  apply existsb_exists in Hex as (v & Hv & Heq). apply Z.eqb_eq in Heq.
  exfalso. apply (next_rowid_fresh (documents view)).
  rewrite Hsame, <- Heq. by apply list_elem_of_fmap_2, list_elem_of_In.
Qed.

Ltac run_world :=
  cbn [conn emit set_conn set_db mint tick executed faults db minted uuid4
       trace documents vec_documents fst snd fmap option_fmap option_map
       row_rowid].

Lemma add_single_document (doc : Document) (w : world) :
  quality_filter doc = keep ->
  consistent (db w) ->
  (forall k, (executed w <= k < executed w + 4)%nat -> faults w k = false) ->
  existsb (fun r => String.eqb (row_id r) (uuid4 w (minted w)))
          (documents (db w)) = false ->
  exists w',
    add_documents [doc] w = (Ok None, w')
    /\ db w' = with_document (db w) (uuid4 w (minted w)) doc.
Proof.
  intros Hkeep Hcons Hhealthy Hfresh.
  assert (H0 : faults w (executed w) = false) by (apply Hhealthy; lia).
  assert (H1 : faults w (S (executed w)) = false) by (apply Hhealthy; lia).
  assert (H2 : faults w (S (S (executed w))) = false) by (apply Hhealthy; lia).
  assert (H3 : faults w (S (S (S (executed w)))) = false) by (apply Hhealthy; lia).
  unfold quality_filter in Hkeep.
  destruct (PyStr.len (PyStr.strip (content doc)) <? 10)%Z eqn:Hlen; [done |].
  destruct (String.eqb (source doc) "Unknown") eqn:Hsrc; [done |].
  unfold add_documents, insert_transaction, insert_batch, try_finally,
    try_except, bind,
    get_connection, add_loop.
  rewrite Hlen, Hsrc.
  unfold insert_one, bind, fresh_uuid, execute, insert_document, select_rowid,
    insert_vector, ret, commit, print, close.
  run_world. rewrite H0. run_world. rewrite Hfresh. run_world. rewrite H1.
  run_world. rewrite (find_after_fresh _ _ _ Hfresh) by apply String.eqb_refl.
  run_world. rewrite H2. run_world. rewrite (vector_rowid_free _ Hcons).
  run_world. rewrite H3. run_world.
  eexists. split; reflexivity.
Qed.

Lemma presentable_longer (h : hit) (text : string) :
  presentable h -> String.length text = 10%nat -> hit_content h <> Some text.
Proof.
  intros (_ & c & Hc & Hlen) Hten Heq.
  rewrite Hc in Heq. injection Heq as ->. unfold PyStr.len in Hlen. lia.
Qed.

(** C10.  A candidate whose content is exactly ten characters long, with
    no white space at either end, and whose source is not "Unknown" passes
    the quality filter; on a consistent store, with a healthy engine and an
    unused identifier, [add_documents] commits its row and its vector
    entry; and yet no call of [search_keyword] or [search], in any state of
    the store, returns a row with that content -- both read filters ask
    for more than ten characters. *)
Theorem ten_characters_stored_never_returned (doc : Document) :
  String.length (content doc) = 10%nat ->
  PyStr.strip (content doc) = content doc ->
  source doc <> "Unknown" ->
  quality_filter doc = keep
  /\ (forall w,
        consistent (db w) ->
        (forall k, (executed w <= k < executed w + 4)%nat -> faults w k = false) ->
        existsb (fun r => String.eqb (row_id r) (uuid4 w (minted w)))
                (documents (db w)) = false ->
        exists w' r v,
          add_documents [doc] w = (Ok None, w')
          /\ documents (db w') = documents (db w) ++ [r]
          /\ vec_documents (db w') = vec_documents (db w) ++ [v]
          /\ row_source r = source doc
          /\ row_content r = Some (content doc)
          /\ vec_rowid v = row_rowid r)
  /\ (forall query limit w,
        exists hits w',
          search_keyword query limit w = (Ok hits, w')
          /\ Forall (fun h => hit_content h <> Some (content doc)) hits)
  /\ (forall query limit w,
        exists answer w',
          search query limit w = (Ok answer, w')
          /\ Forall (fun h => hit_content h <> Some (content doc))
                    (results answer)).
Proof.
  intros Hten Hstrip Hsrc.
  assert (Hkeep : quality_filter doc = keep).
  { unfold quality_filter. rewrite Hstrip. unfold PyStr.len. rewrite Hten. cbn.
    destruct (String.eqb_spec (source doc) "Unknown"); done. }
  split_and!; [done | | |].
  - intros w Hcons Hhealthy Hfresh.
    destruct (add_single_document doc w Hkeep Hcons Hhealthy Hfresh)
      as (w' & Hrun & Hdb).
    exists w', (new_row (db w) (uuid4 w (minted w)) doc), (new_vector (db w) doc).
    rewrite Hdb. by split_and!.
  - intros query limit w.
    destruct (search_keyword_hits query limit w)
      as (hits & w' & Hrun & _ & Hok & _).
    exists hits, w'. split; [done |].
    eapply Forall_impl; [exact Hok |]. intros h Hh. by apply presentable_longer.
  - intros query limit w.
    destruct (search_presentable query limit w) as (answer & w' & Hrun & Hok).
    exists answer, w'. split; [done |].
    eapply Forall_impl; [exact Hok |]. intros h Hh. by apply presentable_longer.
Qed.

End Properties.

(* ===================================================================== *)
(** ** Further properties: connections, failures, round trips, callers *)
(* ===================================================================== *)

Section FurtherProperties.
Context `{Collaborators} `{Presentation}.
Local Open Scope list_scope.

(** *** One connection per sub-search *)

Lemma session_counts (t evs : list event) :
  session evs ->
  connects (t ++ evs) = S (connects t) /\ closes (t ++ evs) = S (closes t)
  /\ commits (t ++ evs) = commits t.
Proof.
  intros (printing & -> & Hprinting).
  unfold connects, closes, commits.
  rewrite !List.filter_app, !length_app. cbn [List.filter length].
  rewrite !List.filter_app, !length_app. cbn [List.filter length].
  assert (Hnone : forall f : event -> bool,
             (forall m, f (Print m) = false) ->
             length (List.filter f printing) = 0%nat).
  { intros f Hf. clear -Hprinting Hf.
    induction Hprinting as [| e l He _ IH]; [done |].
    destruct e; try done. cbn. by rewrite Hf. }
  rewrite !Hnone by done. lia.
Qed.

Ltac close_lookup :=
  cbn; unfold emit, set_conn, tick; cbn; rewrite <- ?app_assoc; reflexivity.

(** The two lookups in closed form. *)
Lemma search_keyword_exact (query : string) (limit : Z) (w : world) :
  search_keyword query limit w
  = match keyword_outcome query limit w with
    | Ok hits => (Ok hits, after_lookup limit [] w)
    | Raise e => (Ok [], after_lookup limit [Print (ErrorKeywordSearch e)] w)
    end.
Proof.
  unfold search_keyword, keyword_lookup, keyword_outcome, after_lookup.
  unfold bind at 1. unfold get_connection.
  unfold try_finally, try_except, bind at 1, bind_integer.
  destruct (Sql.fits_int64 limit).
  - unfold ret at 1. unfold bind at 1, execute.
    cbn [conn emit set_conn executed faults].
    destruct (faults w (executed w)).
    + by close_lookup.
    + unfold select_keyword. cbn [db tick set_conn emit].
      destruct (like_refused _ limit (db w)); [by close_lookup |].
      rewrite format_keyword_rows_run.
      fold (keyword_rows query limit (db w)).
      destruct (keyword_hits _) as [hs | e]; by close_lookup.
  - by close_lookup.
Qed.

Lemma vector_search_exact (query : string) (limit : Z) (w : world) :
  vector_search query limit w
  = match vector_outcome query limit w with
    | Ok hits => (Ok hits, after_lookup limit [] w)
    | Raise e => (Ok [], after_lookup limit [Print (ErrorVectorSearch e)] w)
    end.
Proof.
  unfold vector_search, vector_lookup, vector_outcome, after_lookup. cbn zeta.
  unfold bind at 1. unfold get_connection.
  unfold try_finally, try_except, bind at 1, bind_integer.
  destruct (Sql.fits_int64 limit).
  - unfold ret at 1. unfold bind at 1, execute.
    cbn [conn emit set_conn executed faults].
    destruct (faults w (executed w)).
    + by close_lookup.
    + unfold fetched_rows, select_vector. cbn [db tick set_conn emit].
      destruct (knn_refused limit) eqn:Hrefused.
      * by close_lookup.
      * assert (Hpos : (0 <= limit)%Z).
        { unfold knn_refused in Hrefused.
          apply orb_false_iff in Hrefused as [Hneg _].
          by apply Z.ltb_ge in Hneg. }
        unfold bind. rewrite format_vector_rows_run. cbn [app].
        destruct (vector_hits _) as [hs | e]; cbn.
        -- unfold slice_to. destruct (Z.leb_spec 0 limit); [| lia].
           by close_lookup.
        -- by close_lookup.
  - by close_lookup.
Qed.

Lemma after_lookup_session (limit : Z) (printing : list event) (w : world) :
  Forall printed printing ->
  let w' := after_lookup limit printing w in
  db w' = db w /\ conn w' = None
  /\ minted w' = minted w /\ faults w' = faults w /\ uuid4 w' = uuid4 w
  /\ (executed w <= executed w' <= S (executed w))%nat
  /\ trace w' = trace w ++ Connect :: printing ++ [Close]
  /\ session (Connect :: printing ++ [Close]).
Proof.
  intros Hprinting. cbn.
  split_and!; try done; try (destruct (Sql.fits_int64 limit); lia).
  by exists printing.
Qed.

(** [search_keyword] in full: it answers, on a connection of its own that
    it closes, without touching the committed file or the identifiers, in
    at most one statement. *)
Lemma search_keyword_session (query : string) (limit : Z) (w : world) :
  exists hits w' evs,
    search_keyword query limit w = (Ok hits, w')
    /\ db w' = db w /\ conn w' = None
    /\ minted w' = minted w /\ faults w' = faults w /\ uuid4 w' = uuid4 w
    /\ (executed w <= executed w' <= S (executed w))%nat
    /\ trace w' = trace w ++ evs /\ session evs.
Proof.
  rewrite search_keyword_exact.
  destruct (keyword_outcome query limit w) as [hits | e].
  - eexists _, _, _. split; [reflexivity |].
    by apply (after_lookup_session limit []).
  - eexists _, _, _. split; [reflexivity |].
    apply (after_lookup_session limit [_]). by repeat constructor.
Qed.

Lemma vector_search_session (query : string) (limit : Z) (w : world) :
  exists hits w' evs,
    vector_search query limit w = (Ok hits, w')
    /\ db w' = db w /\ conn w' = None
    /\ minted w' = minted w /\ faults w' = faults w /\ uuid4 w' = uuid4 w
    /\ (executed w <= executed w' <= S (executed w))%nat
    /\ trace w' = trace w ++ evs /\ session evs.
Proof.
  rewrite vector_search_exact.
  destruct (vector_outcome query limit w) as [hits | e].
  - eexists _, _, _. split; [reflexivity |].
    by apply (after_lookup_session limit []).
  - eexists _, _, _. split; [reflexivity |].
    apply (after_lookup_session limit [_]). by repeat constructor.
Qed.

(** [search] in full: one session, or two in a row when it falls back on
    the keyword search. *)
Lemma search_session (query : string) (limit : Z) (w : world) :
  exists answer w' evs,
    search query limit w = (Ok answer, w')
    /\ db w' = db w /\ conn w' = None
    /\ minted w' = minted w /\ faults w' = faults w /\ uuid4 w' = uuid4 w
    /\ (executed w <= executed w' <= S (S (executed w)))%nat
    /\ trace w' = trace w ++ evs
    /\ (session evs
        \/ exists first second,
             evs = first ++ second /\ session first /\ session second).
Proof.
  destruct (search_cases query limit w) as (vr & w1 & Hrun & Hcases).
  destruct (vector_search_session query limit w)
    as (vr' & w1' & evs & Hrun' & Hdb & Hconn & Hmint & Hfl & Hid & Hex & Htr & Hs).
  assert (vr' = vr /\ w1' = w1) as [-> ->] by (split; congruence).
  destruct vr as [| top others].
  { eexists _, w1, evs. split; [exact Hcases |].
    split_and!; try done; try lia. by left. }
  destruct Hcases as (d & Hd & Hcases).
  destruct (Qlt_bool d threshold).
  { eexists _, w1, evs. split; [exact Hcases |].
    split_and!; try done; try lia. by left. }
  destruct Hcases as (kr & w2 & Hkw & Hend).
  destruct (search_keyword_session query limit w1)
    as (kr' & w2' & evs2 & Hkw' & Hdb2 & Hconn2 & Hmint2 & Hfl2 & Hid2 & Hex2
        & Htr2 & Hs2).
  assert (kr' = kr /\ w2' = w2) as [-> ->] by (split; congruence).
  assert (Hanswer : exists answer, search query limit w = (Ok answer, w2)).
  { destruct kr; eauto. }
  destruct Hanswer as [answer Hanswer].
  exists answer, w2, (evs ++ evs2).
  split_and!; try done; try congruence; try lia.
  - by rewrite Htr2, Htr, app_assoc.
  - right. by exists evs, evs2.
Qed.

Lemma add_documents_released (docs : list Document) (w : world) :
  match docs with
  | [] => (add_documents docs w).2 = w
  | _ :: _ => released w (add_documents docs w).2
  end.
Proof.
  destruct docs as [| doc rest]; [done |]. unfold released.
  destruct (add_documents_cases doc rest w)
    as (r & wl & evs & view & _ & _ & _ & _ & Htr & Hevs & _ & _ & Hend).
  assert (Hloop : connects (trace wl) = S (connects (trace w))
                  /\ closes (trace wl) = closes (trace w)).
  { rewrite Htr. unfold connects, closes.
    rewrite !List.filter_app, !length_app. cbn [List.filter length].
    assert (Hnone : forall f : event -> bool,
               (forall m, f (Print m) = false) ->
               length (List.filter f evs) = 0%nat).
    { intros f Hf. clear -Hevs Hf.
      induction Hevs as [| e l He _ IH]; [done |].
      destruct e; try done. cbn. by rewrite Hf. }
    rewrite !Hnone by done. lia. }
  destruct Hloop as [Hopen Hclose].
  assert (Hgoal : forall (wf : world) (tail : list event),
             conn wf = None -> trace wf = trace wl ++ tail ->
             connects tail = 0%nat -> closes tail = 1%nat ->
             conn wf = None
             /\ connects (trace wf) = S (connects (trace w))
             /\ closes (trace wf) = S (closes (trace w))).
  { intros wf tail Hc Ht Hco Hcl. split; [done |]. rewrite Ht.
    unfold connects, closes in *.
    rewrite !List.filter_app, !length_app. lia. }
  destruct r as [n | e].
  - destruct (faults w (executed wl)).
    + destruct Hend as [_ ->].
      eapply (Hgoal _ [Rollback; Print _; Close]); try done.
      cbn. by rewrite <- !app_assoc.
    + rewrite Hend.
      eapply (Hgoal _ [Commit; Print _; Close]); try done.
      cbn. by rewrite <- !app_assoc.
  - destruct Hend as [_ ->].
    eapply (Hgoal _ [Rollback; Print _; Close]); try done.
    cbn. by rewrite <- !app_assoc.
Qed.

Lemma session_released (w w' : world) (evs : list event) :
  conn w' = None -> trace w' = trace w ++ evs -> session evs ->
  released w w'.
Proof.
  intros Hconn Htr Hs. unfold released. rewrite Htr.
  destruct (session_counts (trace w) evs Hs) as (-> & -> & _). done.
Qed.

(** [_get_connection] in closed form. *)
Lemma open_connection_run (o : opening) (w : world) :
  open_connection o w
  = match connect o with
    | Some e => (Raise e, w)
    | None =>
        match setup_failure o with
        | Some e => (Raise e, connected w)
        | None => (Ok tt, connected w)
        end
    end.
Proof. by destruct o as [[c |] [j |] [b |] [e |] [l |]]. Qed.

Lemma left_open_connected (w : world) : left_open w (connected w).
Proof. unfold left_open. cbn. by split_and!. Qed.

Lemma opens_as_bind {A} (o : opening) (body : M A) (w : world) :
  opens_as o (bind (open_connection o) (fun _ => body) w)
             (bind get_connection (fun _ => body) w) w.
Proof.
  unfold opens_as, bind. rewrite open_connection_run.
  destruct (connect o) as [e |]; [done |].
  destruct (setup_failure o) as [e |]; [| done].
  split; [done |]. apply left_open_connected.
Qed.

Lemma opens_as_bind_bind {A B} (o : opening) (body : M A) (k : A -> M B)
  (w : world) :
  opens_as o (bind (bind (open_connection o) (fun _ => body)) k w)
             (bind (bind (open_connection granted) (fun _ => body)) k w) w.
Proof.
  unfold opens_as, bind. rewrite !open_connection_run.
  destruct (connect o) as [e |]; [done |].
  destruct (setup_failure o) as [e |]; [| done].
  split; [done |]. apply left_open_connected.
Qed.

(** X2.  Which connections a call closes.  [_get_connection] runs before
    the [try] of each method.  When its [sqlite3.connect] raises, the
    method raises the same with nothing opened; when a later step of it
    raises (a PRAGMA, the loading of the extension), the method raises the
    same and the connection just opened is left open; otherwise the
    method runs on the connection it was handed, and closes it before it
    ends, whether it returns or raises: [add_documents] one connection on
    a non-empty batch (none on an empty one), [search_keyword] one, and
    [search] one for the vector lookup, closed before the keyword search
    opens its own, of which the same holds. *)
Theorem connections_are_released :
  (forall o docs w,
     match docs with
     | [] => add_documents_from o docs w = (Ok None, w)
     | _ :: _ =>
         opens_as o (add_documents_from o docs w) (add_documents docs w) w
     end)
  /\ (forall docs w,
        match docs with
        | [] => (add_documents docs w).2 = w
        | _ :: _ => released w (add_documents docs w).2
        end)
  /\ (forall o query limit w,
        opens_as o (search_keyword_from o query limit w)
                   (search_keyword query limit w) w)
  /\ (forall query limit w,
        let w' := (search_keyword query limit w).2 in
        released w w' /\ exists evs, trace w' = trace w ++ evs /\ session evs)
  /\ (forall o o' query limit w,
        opens_as o (search_from o o' query limit w)
                   (search_from granted o' query limit w) w)
  /\ (forall o' query limit w,
        let run := search_from granted o' query limit w in
        exists vector_results w1 first,
          vector_search query limit w = (Ok vector_results, w1)
          /\ trace w1 = trace w ++ first /\ session first
          /\ released w w1
          /\ (run.2 = w1
              \/ match connect o', setup_failure o' with
                 | Some e, _ => run = (Raise e, w1)
                 | None, Some e => run.1 = Raise e /\ left_open w1 run.2
                 | None, None =>
                     released w1 run.2
                     /\ exists second,
                          trace run.2 = trace w1 ++ second /\ session second
                 end))
  /\ (forall query limit w,
        search_from granted granted query limit w = search query limit w).
Proof.
  split_and!.
  - intros o [| doc rest] w; [done |].
    exact (opens_as_bind o (insert_transaction (doc :: rest)) w).
  - apply add_documents_released.
  - intros o query limit w.
    exact (opens_as_bind o (keyword_lookup query limit) w).
  - intros query limit w. cbn zeta.
    destruct (search_keyword_session query limit w)
      as (hits & w' & evs & -> & _ & Hconn & _ & _ & _ & _ & Htr & Hs).
    split; [by eapply session_released |]. by exists evs.
  - intros o o' query limit w.
    exact (opens_as_bind_bind o (vector_lookup (embed_text query) limit)
             (fun vector_results =>
                hybrid vector_results (search_keyword_from o' query limit)) w).
  - intros o' query limit w. cbn zeta.
    destruct (vector_search_session query limit w)
      as (vr & w1 & first & Hrun & _ & Hconn & _ & _ & _ & _ & Htr & Hs).
    exists vr, w1, first. split_and!; [done | done | done | |].
    { by eapply session_released. }
    assert (Hrun' : search_from granted o' query limit w
                    = hybrid vr (search_keyword_from o' query limit) w1).
    { change (search_from granted o' query limit w)
        with (bind (vector_search query limit)
                (fun vector_results =>
                   hybrid vector_results
                          (search_keyword_from o' query limit)) w).
      unfold bind. by rewrite Hrun. }
    rewrite Hrun'. clear Hrun'. unfold hybrid.
    destruct vr as [| top others]; [by left |].
    destruct (hit_distance top) as [d |]; [| by left].
    destruct (Qlt_bool d threshold); [by left |].
    right. unfold bind.
    pose proof (opens_as_bind o' (keyword_lookup query limit) w1) as Hopen.
    unfold opens_as in Hopen.
    change (bind (open_connection o') (fun _ => keyword_lookup query limit) w1)
      with (search_keyword_from o' query limit w1) in Hopen.
    change (bind get_connection (fun _ => keyword_lookup query limit) w1)
      with (search_keyword query limit w1) in Hopen.
    destruct (connect o') as [e |]; [by rewrite Hopen |].
    destruct (setup_failure o') as [e |].
    + destruct Hopen as [Hraise Hleft].
      destruct (search_keyword_from o' query limit w1) as [[kr | e'] w2];
        [done |]. cbn in *. by injection Hraise as ->.
    + rewrite Hopen.
      destruct (search_keyword_session query limit w1)
        as (kr & w2 & second & -> & _ & Hconn2 & _ & _ & _ & _ & Htr2 & Hs2).
      assert (Hw2 : forall r : result response,
                 released w1 (r, w2).2
                 /\ exists second, trace (r, w2).2 = trace w1 ++ second
                                   /\ session second).
      { intros r. split; [by eapply session_released |]. by exists second. }
      destruct kr; apply Hw2.
  - done.
Qed.

Lemma get_context_world (query : string) (limit : Z) (w : world) :
  (get_context query limit w).2 = (search query limit w).2.
Proof.
  unfold get_context, bind.
  destruct (search query limit w) as [[answer | e] w']; [| done].
  destruct (results answer) as [| top others]; [done |].
  by destruct (context_blocks _ (top :: others) []).
Qed.

(** X3.  Searching never writes.  [search_keyword], [search] and the MCP
    tool [get_context] leave the committed store as it was, commit nothing
    and draw no identifier, whatever the query, the limit, the state of the
    store and the failures of the engine. *)
Theorem searches_are_read_only (query : string) (limit : Z) (w : world) :
  (let w' := (search_keyword query limit w).2 in
   db w' = db w /\ commits (trace w') = commits (trace w)
   /\ minted w' = minted w)
  /\ (let w' := (search query limit w).2 in
      db w' = db w /\ commits (trace w') = commits (trace w)
      /\ minted w' = minted w)
  /\ (let w' := (get_context query limit w).2 in
      db w' = db w /\ commits (trace w') = commits (trace w)
      /\ minted w' = minted w).
Proof.
  assert (Hsearch : let w' := (search query limit w).2 in
            db w' = db w /\ commits (trace w') = commits (trace w)
            /\ minted w' = minted w).
  { cbn zeta.
    destruct (search_session query limit w)
      as (answer & w' & evs & -> & Hdb & _ & Hmint & _ & _ & _ & Htr & Hs).
    cbn. split_and!; [done | | done]. rewrite Htr.
    destruct Hs as [Hs | (e1 & e2 & -> & Hs1 & Hs2)].
    - by apply session_counts.
    - rewrite app_assoc.
      destruct (session_counts (trace w ++ e1) e2 Hs2) as (_ & _ & ->).
      by apply session_counts. }
  split_and!; [| exact Hsearch | by rewrite get_context_world].
  cbn zeta.
  destruct (search_keyword_session query limit w)
    as (hits & w' & evs & -> & Hdb & _ & Hmint & _ & _ & _ & Htr & Hs).
  cbn. split_and!; [done | | done]. rewrite Htr. by apply session_counts.
Qed.

(** *** Failures that become answers *)

(** X4.  Which failures [search_keyword] turns into the empty answer.
    A failure inside its [try] -- the limit does not fit SQLite's 64-bit
    integer, the engine fails the query, the LIKE pattern is over 50000
    bytes long and a row is scanned, or a selected row carries metadata
    that do not decode -- makes the method return the empty list (rows
    formatted before the failure included) after printing the error, with
    its connection closed.  A failure of [_get_connection], which runs
    before the [try], is not turned into an answer: the method raises
    it. *)
Theorem search_keyword_failure_is_empty (query : string) (limit : Z)
  (w : world) :
  let pattern := ("%" ++ query ++ "%")%string in
  let lost e :=
    exists w',
      search_keyword query limit w = (Ok [], w')
      /\ trace w' = trace w ++ [Connect; Print (ErrorKeywordSearch e); Close]
      /\ conn w' = None in
  (Sql.fits_int64 limit = false -> lost OverflowError)
  /\ (Sql.fits_int64 limit = true -> faults w (executed w) = true ->
      lost (StorageFailure (executed w)))
  /\ (Sql.fits_int64 limit = true -> faults w (executed w) = false ->
      like_refused pattern limit (db w) = true ->
      lost OperationalError)
  /\ (Sql.fits_int64 limit = true -> faults w (executed w) = false ->
      like_refused pattern limit (db w) = false ->
      (exists r, r ∈ keyword_rows query limit (db w)
                 /\ decoded (row_metadata r) = Raise JSONDecodeError) ->
      lost JSONDecodeError)
  /\ (forall o e,
        connect o = Some e
        \/ connect o = None /\ setup_failure o = Some e ->
        (search_keyword_from o query limit w).1 = Raise e)
  /\ search_keyword_from granted query limit w = search_keyword query limit w.
Proof.
  intros pattern lost. subst pattern lost. cbn beta.
  split_and!; [rewrite search_keyword_exact; unfold keyword_outcome.. | |].
  - intros ->. by eexists.
  - intros -> ->. by eexists.
  - intros -> -> ->. by eexists.
  - intros -> -> -> (r & Hin & Hbad).
    rewrite (keyword_hits_undecodable _ r Hin Hbad). by eexists.
  - intros o e Hfail.
    pose proof (opens_as_bind o (keyword_lookup query limit) w) as Hopen.
    unfold opens_as in Hopen.
    change (bind (open_connection o) (fun _ => keyword_lookup query limit) w)
      with (search_keyword_from o query limit w) in Hopen.
    destruct Hfail as [Hc | [Hc Hs]].
    + rewrite Hc in Hopen. by rewrite Hopen.
    + rewrite Hc, Hs in Hopen. by destruct Hopen.
  - done.
Qed.

(** X5.  A failed vector lookup ends [search] with [no_results]: when
    the limit does not fit a 64-bit integer, when the engine fails the
    query, or when the limit is negative or above 4096 (which sqlite-vec
    refuses), [search] prints the error and answers [no_results] with no
    results.  The keyword search is not tried: the one connection of the
    vector lookup is all the call opens. *)
Theorem vector_failure_is_no_results (query : string) (limit : Z) (w : world) :
  Sql.fits_int64 limit = false \/ faults w (executed w) = true
  \/ (limit < 0)%Z \/ (vec_k_max < limit)%Z ->
  exists e w',
    search query limit w
    = (Ok {| results := []; search_strategy := "no_results" |}, w')
    /\ trace w' = trace w ++ [Connect; Print (ErrorVectorSearch e); Close]
    /\ conn w' = None.
Proof.
  intros Hfail. unfold search, hybrid, bind. rewrite vector_search_exact.
  assert (Hout : exists e, vector_outcome query limit w = Raise e).
  { unfold vector_outcome.
    destruct (Sql.fits_int64 limit); [| by eexists].
    destruct (faults w (executed w)); [by eexists |].
    destruct (knn_refused limit) eqn:Hrefused; [by eexists |].
    unfold knn_refused in Hrefused.
    apply orb_false_iff in Hrefused as [Hneg%Z.ltb_ge Hmax%Z.ltb_ge].
    destruct Hfail as [| [| [|]]]; [done | done | lia | lia]. }
  destruct Hout as [e ->]. by exists e, (after_lookup limit [Print (ErrorVectorSearch e)] w).
Qed.

(** X17.  The limit 0 is an empty answer.  Whatever the store holds and
    however close its vectors are, [search] with limit 0 answers
    [no_results], and makes no keyword search. *)
Theorem zero_limit_is_no_results (query : string) (w : world) :
  exists w' evs,
    search query 0 w
    = (Ok {| results := []; search_strategy := "no_results" |}, w')
    /\ trace w' = trace w ++ evs /\ session evs.
Proof.
  unfold search, hybrid, bind. rewrite vector_search_exact.
  assert (Hout : vector_outcome query 0 w = Ok []
                 \/ exists e, vector_outcome query 0 w = Raise e).
  { unfold vector_outcome. cbn.
    destruct (faults w (executed w)); [right; by eexists |].
    destruct (vector_hits _); [by left | right; by eexists]. }
  destruct Hout as [-> | [e ->]].
  - eexists _, _. split_and!; [done | done |].
    exists []. by split.
  - eexists _, _. split_and!; [done | done |].
    eexists [_]. split; [done |]. by repeat constructor.
Qed.


(** *** What a batch writes *)

Lemma max_rowid_absorb (rows : list doc_row) (c a : Z) :
  foldr (fun x m => Z.max (row_rowid x) m) (Z.max c a) rows
  = Z.max c (foldr (fun x m => Z.max (row_rowid x) m) a rows).
Proof. induction rows as [| r rows IH]; cbn; [done | rewrite IH; lia]. Qed.

Lemma next_rowid_snoc (rows : list doc_row) (r : doc_row) :
  row_rowid r = next_rowid rows ->
  next_rowid (rows ++ [r]) = (next_rowid rows + 1)%Z.
Proof.
  destruct rows as [| r0 rows]; cbn; [intros ->; lia |].
  intros Hr. rewrite foldr_app. cbn.
  rewrite (Z.max_comm (row_rowid r)), Z.max_comm, max_rowid_absorb. lia.
Qed.

Lemma insert_one_counts (doc : Document) (n n' : nat) (w w' : world)
  (view : store) :
  conn w = Some view ->
  insert_one doc n w = (Ok n', w') ->
  minted w' = S (minted w) /\ executed w' = S (S (S (executed w)))
  /\ uuid4 w' = uuid4 w.
Proof.
  intros Hconn. unfold insert_one, bind, fresh_uuid, execute. cbn.
  rewrite Hconn.
  destruct (faults w (executed w)); [discriminate |].
  unfold insert_document.
  destruct (existsb _ (documents view)) eqn:Hfresh; [discriminate |].
  cbn. destruct (faults w (S (executed w))); [discriminate |].
  cbn. rewrite (find_after_fresh _ _ _ Hfresh) by apply String.eqb_refl.
  cbn. destruct (faults w (S (S (executed w)))); [discriminate |].
  unfold insert_vector. cbn.
  destruct (existsb _ (vec_documents view)); [discriminate |].
  cbn. by intros [= <- <-].
Qed.

Lemma add_loop_exact (docs : list Document) :
  forall (n n' : nat) (w w' : world) (view : store),
    conn w = Some view ->
    add_loop docs n w = (Ok n', w') ->
    let kept := List.filter admitted docs in
    let next := next_rowid (documents view) in
    conn w'
    = Some {| documents :=
                documents view ++ batch_rows next (uuid4 w) (minted w) kept;
              vec_documents := vec_documents view ++ batch_vectors next kept |}
    /\ minted w' = (minted w + length kept)%nat
    /\ executed w' = (executed w + 3 * length kept)%nat
    /\ uuid4 w' = uuid4 w.
Proof.
  induction docs as [| doc rest IH]; intros n n' w w' view Hconn; cbn [add_loop].
  - intros [= <- <-]. cbn. rewrite !app_nil_r.
    split_and!; [by destruct view | lia | lia | done].
  - assert (Hadm : admitted doc
                   = negb (PyStr.len (PyStr.strip (content doc)) <? 10)%Z
                     && negb (String.eqb (source doc) "Unknown")).
    { unfold admitted, quality_filter. by repeat case_match. }
    cbn [List.filter]. rewrite Hadm. clear Hadm.
    destruct (PyStr.len (PyStr.strip (content doc)) <? 10)%Z.
    { unfold bind, print. intros Hrest.
      eapply IH in Hrest; [| exact Hconn]. exact Hrest. }
    destruct (String.eqb (source doc) "Unknown").
    { unfold bind, print. intros Hrest.
      eapply IH in Hrest; [| exact Hconn]. exact Hrest. }
    unfold bind at 1.
    destruct (insert_one doc n w) as [[n1 | e] w1] eqn:Hone; [| discriminate].
    intros Hrest.
    destruct (insert_one_ok _ _ _ _ _ _ Hconn Hone) as (-> & Hconn1 & _).
    destruct (insert_one_counts _ _ _ _ _ _ Hconn Hone) as (Hm1 & He1 & Hid1).
    destruct (IH _ _ _ _ _ Hconn1 Hrest) as (Hconn' & Hm & He & Hid).
    cbn zeta in *. cbn [negb andb length batch_rows batch_vectors].
    split_and!; [| lia | lia | congruence].
    rewrite Hconn'. unfold with_document. cbn [documents vec_documents].
    rewrite next_rowid_snoc by done.
    rewrite <- !app_assoc. cbn [app]. rewrite Hid1, Hm1.
    reflexivity.
Qed.

Lemma add_documents_exact (doc : Document) (rest : list Document) (w : world)
  (v : option Z) :
  let run := add_documents (doc :: rest) w in
  let kept := List.filter admitted (doc :: rest) in
  let next := next_rowid (documents (db w)) in
  run.1 = Ok v ->
  db run.2
  = {| documents :=
         documents (db w) ++ batch_rows next (uuid4 w) (minted w) kept;
       vec_documents := vec_documents (db w) ++ batch_vectors next kept |}
  /\ minted run.2 = (minted w + length kept)%nat
  /\ executed run.2 = (executed w + 3 * length kept + 1)%nat
  /\ faults run.2 = faults w.
Proof.
  intros run kept next. subst run.
  destruct (add_documents_cases doc rest w)
    as (r & wl & evs & view & Hloop & _ & Hfl & Hview & _ & _ & _ & _ & Hend).
  destruct r as [n | e0].
  - destruct (faults w (executed wl)).
    + destruct Hend as [_ ->]. discriminate.
    + rewrite Hend. intros _. cbn.
      destruct (add_loop_exact _ _ _ (connected w) _ (db w) eq_refl Hloop)
        as (Hconn & Hm & He & _).
      cbn in Hconn, Hm, He. rewrite Hview in Hconn.
      injection Hconn as ->. split_and!; [done | done | lia | done].
  - destruct Hend as [_ ->]. discriminate.
Qed.

Lemma batch_rows_lookup (docs : list Document) :
  forall (next : Z) (ids : nat -> string) (first i : nat),
    batch_rows next ids first docs !! i
    = (fun doc => {| row_rowid := next + Z.of_nat i;
                     row_id := ids (first + i)%nat;
                     row_source := source doc;
                     row_content := Some (content doc);
                     row_metadata := Some (json_dumps (metadata doc)) |})
      <$> docs !! i.
Proof.
  induction docs as [| doc rest IH]; intros next ids first i; [done |].
  destruct i as [| i]; cbn.
  - by rewrite Z.add_0_r, Nat.add_0_r.
  - rewrite IH. destruct (rest !! i); [| done]. cbn. do 2 f_equal.
    + lia.
    + f_equal. lia.
Qed.

Lemma batch_vectors_lookup (docs : list Document) :
  forall (next : Z) (i : nat),
    batch_vectors next docs !! i
    = (fun doc => {| vec_rowid := next + Z.of_nat i;
                     vec_embedding := embed_text (content doc) |})
      <$> docs !! i.
Proof.
  induction docs as [| doc rest IH]; intros next i; [done |].
  destruct i as [| i]; cbn.
  - by rewrite Z.add_0_r.
  - rewrite IH. destruct (rest !! i); [| done]. cbn. do 2 f_equal. lia.
Qed.

Lemma batch_rows_length (docs : list Document) :
  forall next ids first, length (batch_rows next ids first docs) = length docs.
Proof. induction docs; intros; cbn; [done | by f_equal]. Qed.

Lemma batch_vectors_length (docs : list Document) :
  forall next, length (batch_vectors next docs) = length docs.
Proof. induction docs; intros; cbn; [done | by f_equal]. Qed.

(** X7.  What a successful batch leaves in the two tables.  The rows that
    were there stay where they were; the [i]-th admitted document of the
    batch becomes the row right after them, under the rowid [i] above the
    next free one and the [i]-th identifier drawn, with its source,
    content and serialised metadata, and its embedding is entered in the
    vector index under the same rowid.  So new rowids ascend in batch
    order and lie above every rowid in use. *)
Theorem add_documents_writes_in_order (docs : list Document) (w : world)
  (v : option Z) :
  let run := add_documents docs w in
  let kept := List.filter admitted docs in
  let next := next_rowid (documents (db w)) in
  run.1 = Ok v ->
  (forall i, (i < length (documents (db w)))%nat ->
             documents (db run.2) !! i = documents (db w) !! i)
  /\ (forall i, (i < length (vec_documents (db w)))%nat ->
                vec_documents (db run.2) !! i = vec_documents (db w) !! i)
  /\ length (documents (db run.2))
     = (length (documents (db w)) + length kept)%nat
  /\ length (vec_documents (db run.2))
     = (length (vec_documents (db w)) + length kept)%nat
  /\ (forall i doc, kept !! i = Some doc ->
        documents (db run.2) !! (length (documents (db w)) + i)%nat
        = Some {| row_rowid := next + Z.of_nat i;
                  row_id := uuid4 w (minted w + i)%nat;
                  row_source := source doc;
                  row_content := Some (content doc);
                  row_metadata := Some (json_dumps (metadata doc)) |}
        /\ vec_documents (db run.2) !! (length (vec_documents (db w)) + i)%nat
           = Some {| vec_rowid := next + Z.of_nat i;
                     vec_embedding := embed_text (content doc) |})
  /\ (forall old, old ∈ documents (db w) -> (row_rowid old < next)%Z).
Proof.
  intros run kept next Hok. subst run.
  assert (Hold : forall old, old ∈ documents (db w) -> (row_rowid old < next)%Z).
  { intros old Hin. pose proof (next_rowid_above (documents (db w))) as Habove.
    rewrite List.Forall_forall in Habove. apply Habove.
    by apply list_elem_of_In. }
  destruct docs as [| doc rest].
  { cbn. split_and!; try done; try lia. }
  destruct (add_documents_exact doc rest w v Hok) as (-> & _ & _ & _).
  cbn [documents vec_documents]. fold kept next.
  split_and!; [| | | | | done].
  - intros i Hi. by rewrite lookup_app_l.
  - intros i Hi. by rewrite lookup_app_l.
  - by rewrite length_app, batch_rows_length.
  - by rewrite length_app, batch_vectors_length.
  - intros i d Hi. split.
    + rewrite lookup_app_r by lia.
      replace (length (documents (db w)) + i - length (documents (db w)))%nat
        with i by lia.
      by rewrite batch_rows_lookup, Hi.
    + rewrite lookup_app_r by lia.
      replace (length (vec_documents (db w)) + i
               - length (vec_documents (db w)))%nat with i by lia.
      by rewrite batch_vectors_lookup, Hi.
Qed.

(** X8.  What a successful batch costs.  A non-empty batch that succeeds
    has run three statements for every admitted document and one commit,
    and has drawn one identifier for every admitted document; a dropped
    document costs no statement and no identifier. *)
Theorem add_documents_accounting (docs : list Document) (w : world)
  (v : option Z) :
  let run := add_documents docs w in
  let kept := List.filter admitted docs in
  docs <> [] ->
  run.1 = Ok v ->
  executed run.2 = (executed w + 3 * length kept + 1)%nat
  /\ minted run.2 = (minted w + length kept)%nat.
Proof.
  intros run kept Hdocs Hok. subst run.
  destruct docs as [| doc rest]; [done |].
  by destruct (add_documents_exact doc rest w v Hok) as (_ & -> & -> & _).
Qed.

(** *** From the batch to the answers *)


Lemma filter_shorter {A} (f : A -> bool) (l : list A) :
  (length (List.filter f l) <= length l)%nat.
Proof. induction l as [| x l IH]; cbn; [done |]. destruct (f x); cbn; lia. Qed.





(** X11.  The read filter is applied after the cut.  When every one of
    the [limit] stored vectors that sqlite-vec lists as nearest to the
    query (in whatever order it lists equally far ones) belongs to a row
    the read filter rejects, [search] answers [no_results] and makes no
    keyword search -- the one connection of the vector lookup is all it
    opens -- whatever readable rows the store holds further away, and
    whether or not their content contains the query. *)
Theorem filtered_neighbours_hide_the_rest (query : string) (limit : Z)
  (w : world) :
  (forall m d, m ∈ knn_matches (embed_text query) limit (db w) ->
               d ∈ documents (db w) -> row_rowid d = m.1 ->
               readable d = false) ->
  exists w' evs,
    search query limit w
    = (Ok {| results := []; search_strategy := "no_results" |}, w')
    /\ trace w' = trace w ++ evs /\ session evs
    /\ Forall (fun e => forall x, e <> Print (ErrorKeywordSearch x)) evs.
Proof.
  intros Hhidden.
  assert (Hfetched : fetched_rows query limit (db w) = []).
  { unfold fetched_rows, select_vector.
    destruct (knn_refused limit); [done |].
    replace (join_documents _ _) with (@nil vector_row); [done |].
    symmetry. unfold join_documents.
    induction (knn_matches (embed_text query) limit (db w)) as [| m ms IH];
      [done |].
    cbn [flat_map]. rewrite IH by (intros; eapply Hhidden; [by right | done..]).
    rewrite app_nil_r.
    replace (List.filter _ (documents (db w))) with (@nil doc_row); [done |].
    symmetry.
    assert (Hm : forall d, d ∈ documents (db w) -> row_rowid d = m.1 ->
                           readable d = false)
      by (intros; eapply Hhidden; [by left | done..]).
    clear -Hm. induction (documents (db w)) as [| d ds IH]; [done |].
    cbn [List.filter].
    destruct (Z.eqb_spec (row_rowid d) m.1) as [Heq | Hne].
    - rewrite (Hm d) by (done || by left). cbn.
      apply IH. intros d' Hd'. apply Hm. by right.
    - cbn. apply IH. intros d' Hd'. apply Hm. by right. }
  unfold search, hybrid, bind. rewrite vector_search_exact.
  assert (Hout : vector_outcome query limit w = Ok []
                 \/ exists e, vector_outcome query limit w = Raise e).
  { unfold vector_outcome. rewrite Hfetched. cbn.
    destruct (Sql.fits_int64 limit); [| right; by eexists].
    destruct (faults w (executed w)); [right; by eexists |].
    destruct (knn_refused limit); [right; by eexists |].
    left. by rewrite take_nil. }
  destruct Hout as [-> | [e ->]].
  - eexists _, _. split_and!; [done | done | |].
    + exists []. by split.
    + by repeat constructor.
  - eexists _, _. split_and!; [done | done | |].
    + eexists [_]. split; [done |]. by repeat constructor.
    + by repeat constructor.
Qed.

(** *** The workers *)

Lemma add_documents_from_cases (o : opening) (doc : Document)
  (rest : list Document) (w : world) :
  let run := add_documents_from o (doc :: rest) w in
  run = add_documents (doc :: rest) w
  \/ exists e, run.1 = Raise e /\ db run.2 = db w.
Proof.
  cbn zeta.
  pose proof (opens_as_bind o (insert_transaction (doc :: rest)) w) as Hopen.
  unfold opens_as in Hopen.
  change (bind (open_connection o)
               (fun _ => insert_transaction (doc :: rest)) w)
    with (add_documents_from o (doc :: rest) w) in Hopen.
  change (bind get_connection (fun _ => insert_transaction (doc :: rest)) w)
    with (add_documents (doc :: rest) w) in Hopen.
  destruct (connect o) as [e |].
  { right. exists e. by rewrite Hopen. }
  destruct (setup_failure o) as [e |]; [| by left].
  right. exists e. destruct Hopen as (Hraise & _ & _ & Hdb). done.
Qed.

Lemma worker_sync_reports (starting : string) (indexing : nat -> string)
  (breakdown : list Document -> list (string * nat)) :
  reports_the_fetched (worker_sync starting indexing breakdown).
Proof.
  unfold reports_the_fetched. split.
  { intros o made e w. cbn. split; [done |].
    eexists. split; [| reflexivity]. done. }
  intros o made fetched w. cbn zeta. unfold worker_sync.
  destruct fetched as [| doc rest].
  { cbn. split_and!; try done; try lia.
    intros _. split; [done |]. eexists. split; [| reflexivity]. done. }
  pose proof (filter_shorter admitted (doc :: rest)) as Hshort.
  assert (Hcalls : forall announced,
             progress_status announced = "indexing" ->
             progress_processed announced = Some (length (doc :: rest)) ->
             callbacks
               ({| progress_status := "syncing"; progress_text := starting;
                   progress_processed := None |} :: made ++ [announced])
               made (Some (length (doc :: rest)))).
  { intros announced Hstatus Hprocessed. eexists. split; [| by exists announced].
    done. }
  destruct (add_documents_from_cases o doc rest w) as [Hsame | (e & He & Hdb)].
  - rewrite Hsame.
    destruct (add_documents (doc :: rest) w) as [[v | e] w'] eqn:Hrun.
    + cbn [fst snd report_documents report_success].
      destruct (add_documents_exact doc rest w v) as (Hdb & _).
      { by rewrite Hrun. }
      rewrite Hrun in Hdb. cbn [snd] in Hdb.
      split_and!; [done | done | | done | done |].
      * rewrite Hdb. cbn [documents].
        by rewrite length_app, batch_rows_length.
      * intros _. by apply Hcalls.
    + cbn [fst snd]. split_and!; [done | done | |].
      * by apply (add_documents_raise _ _ _ _ Hrun).
      * by apply Hcalls.
  - destruct (add_documents_from o (doc :: rest) w) as [[v | e'] w']; [done |].
    cbn [fst snd] in *. split_and!; [done | done | done |]. by apply Hcalls.
Qed.

(** X12.  A worker reports what was fetched, not what was stored.  For
    each of [SlackWorker.sync], [GoogleWorker.sync] and
    [GitHubWorker.sync], whatever calls of the progress callback the
    connector made and whatever [_get_connection] comes to: the
    ["documents"] of the report is the number of documents the connector
    returned, while the store grows by the admitted ones only; the
    worker's own callbacks are "syncing" before the connector's and, on a
    non-empty fetch only, "indexing" after them; an empty fetch touches
    nothing; an exception of the connector leaves [sync] unchanged; and
    when [add_documents] raises, the exception leaves [sync] after the
    "indexing" callback, with the committed store as it was. *)
Theorem workers_report_the_fetched :
  reports_the_fetched slack_worker_sync
  /\ reports_the_fetched google_worker_sync
  /\ reports_the_fetched github_worker_sync.
Proof. split_and!; apply worker_sync_reports. Qed.

Lemma count_documents_split (p q : Document -> bool) (docs : list Document) :
  (forall d, d ∈ docs -> p d && q d = false) ->
  (count_documents p docs + count_documents q docs
   = count_documents (fun d => p d || q d) docs)%nat.
Proof.
  unfold count_documents.
  induction docs as [| d docs IH]; intros Hdisjoint; [done |].
  assert (Hd : p d && q d = false) by (apply Hdisjoint; left).
  assert (IH' : (length (List.filter p docs) + length (List.filter q docs)
                 = length (List.filter (fun d => p d || q d) docs))%nat).
  { apply IH. intros d' Hd'. apply Hdisjoint. by right. }
  cbn [List.filter]. destruct (p d), (q d); cbn in *; try done; lia.
Qed.

Lemma count_documents_all (p : Document -> bool) (docs : list Document) :
  Forall (fun d => p d = true) docs -> count_documents p docs = length docs.
Proof.
  unfold count_documents. induction 1 as [| d docs Hd _ IH]; [done |].
  cbn. rewrite Hd. cbn. by rewrite IH.
Qed.

(** X13.  The Google report splits the batch.  When [GoogleWorker.sync]
    returns a report on a non-empty batch, its [calendar_events] and
    [emails] together never exceed its [documents], and they add up to it
    when every document carries one of the two sources the Google
    connector assigns. *)
Theorem google_report_splits_the_batch (o : opening) (made : list progress)
  (fetched : list Document) (w : world) (report : sync_report) :
  fetched <> [] ->
  (google_worker_sync o (made, Ok fetched) w).2.1 = Ok report ->
  exists calendar_events emails,
    report_count "calendar_events" report = Some calendar_events
    /\ report_count "emails" report = Some emails
    /\ (calendar_events + emails <= report_documents report)%nat
    /\ (Forall (fun d => source d = "google_calendar" \/ source d = "gmail")
               fetched ->
        (calendar_events + emails)%nat = report_documents report).
Proof.
  intros Hsome. unfold google_worker_sync, worker_sync.
  destruct fetched as [| doc rest]; [done |].
  destruct (add_documents_from o (doc :: rest) w) as [[v | e] w']; [| done].
  cbn [fst snd]. intros [= <-].
  eexists _, _. split; [reflexivity |]. split; [reflexivity |].
  cbn [report_documents snd].
  change (S (length rest)) with (length (doc :: rest)).
  rewrite count_documents_split; last first.
  { intros d _. destruct (String.eqb_spec (source d) "google_calendar") as [-> |];
      [done | done]. }
  split.
  - apply filter_shorter.
  - intros Hall. apply count_documents_all.
    eapply Forall_impl; [exact Hall |]. cbn.
    intros d [-> | ->]; done.
Qed.

Lemma github_counts (docs : list Document) :
  Forall (fun d => source d ∈ github_sources) docs ->
  let labelled s := count_documents (fun d => String.eqb (source d) s) docs in
  count_documents (fun d => py_in "pull_request" (source d)) docs = 0%nat
  /\ count_documents (fun d => py_in "issue" (source d)) docs
     = (labelled "github_issue" + labelled "github_issue_comment")%nat
  /\ count_documents (fun d => py_in "comment" (source d)) docs
     = (labelled "github_issue_comment"
        + labelled "github_pr_review_comment")%nat
  /\ length docs
     = (labelled "github_issue" + labelled "github_issue_comment"
        + labelled "github_pr_review_comment")%nat.
Proof.
  cbn zeta. unfold count_documents.
  induction 1 as [| d docs Hd _ IH]; [done |].
  destruct IH as (Hpr & Hissues & Hcomments & Hdocs).
  cbn [List.filter].
  unfold github_sources in Hd.
  repeat (apply elem_of_cons in Hd as [-> | Hd]);
    [| | | by apply not_elem_of_nil in Hd];
    repeat match goal with
           | |- context [py_in ?a ?b] =>
               let v := eval vm_compute in (py_in a b) in
               change (py_in a b) with v
           | |- context [String.eqb ?a ?b] =>
               let v := eval vm_compute in (String.eqb a b) in
               change (String.eqb a b) with v
           end;
    cbn [length]; rewrite ?Hpr, ?Hissues, ?Hcomments, ?Hdocs;
    split_and!; lia.
Qed.

(** X14.  The GitHub report against the connector's sources.  The
    GitHub connector labels its documents [github_issue],
    [github_issue_comment] and [github_pr_review_comment].  On a batch so
    labelled, [GitHubWorker.sync] reports no pull request at all, counts
    every issue comment both as an issue and as a comment, and so its
    three counts add up to the number of documents plus the number of
    issue comments. *)
Theorem github_report_on_connector_sources (o : opening)
  (made : list progress) (fetched : list Document) (w : world)
  (report : sync_report) :
  fetched <> [] ->
  Forall (fun d => source d ∈ github_sources) fetched ->
  (github_worker_sync o (made, Ok fetched) w).2.1 = Ok report ->
  let labelled s := count_documents (fun d => String.eqb (source d) s) fetched in
  report_count "pull_requests" report = Some 0%nat
  /\ report_count "issues" report
     = Some (labelled "github_issue" + labelled "github_issue_comment")%nat
  /\ report_count "comments" report
     = Some (labelled "github_issue_comment"
             + labelled "github_pr_review_comment")%nat
  /\ report_documents report
     = (labelled "github_issue" + labelled "github_issue_comment"
        + labelled "github_pr_review_comment")%nat.
Proof.
  intros Hsome Hall. unfold github_worker_sync, worker_sync.
  destruct fetched as [| doc rest]; [done |].
  destruct (add_documents_from o (doc :: rest) w) as [[v | e] w']; [| done].
  cbn [fst snd]. intros [= <-].
  destruct (github_counts _ Hall) as (Hpr & Hissues & Hcomments & Hdocs).
  unfold report_count.
  cbn [report_breakdown report_documents List.find fst snd String.eqb
       Ascii.eqb Bool.eqb fmap option_fmap option_map].
  rewrite Hpr, Hissues, Hcomments. split_and!; [done | done | done |].
  exact Hdocs.
Qed.

(** *** The MCP tool *)

Lemma context_blocks_ok (method : string) (docs : list hit) :
  forall acc parts,
    context_blocks method docs acc = Ok parts ->
    exists blocks,
      parts = acc ++ blocks
      /\ Forall2 (fun doc block => context_block method doc = Ok block)
                 docs blocks.
Proof.
  induction docs as [| doc docs IH]; intros acc parts; cbn.
  - intros [= <-]. exists []. split; [by rewrite app_nil_r | constructor].
  - destruct (context_block method doc) as [block | e] eqn:Hblock; [| done].
    intros (blocks & -> & Hall)%IH.
    exists (block :: blocks). split; [by rewrite <- app_assoc |].
    by constructor.
Qed.

Lemma context_blocks_raise (method : string) (docs : list hit) :
  forall acc e,
    context_blocks method docs acc = Raise e ->
    e = OverflowError
    /\ exists doc text,
         doc ∈ docs
         /\ or_else (hit_metadata doc !! "ts") (hit_metadata doc !! "timestamp")
            = Some text
         /\ local_time (before_dot text) = Overflowed.
Proof.
  induction docs as [| doc docs IH]; intros acc e; cbn; [done |].
  destruct (context_block method doc) as [block | e'] eqn:Hblock.
  - intros (-> & d & text & Hd & Hts & Hclock)%IH.
    split; [done |]. exists d, text. split_and!; [by right | done | done].
  - intros [= ->]. unfold context_block, format_timestamp in Hblock.
    destruct (or_else _ _) as [text |] eqn:Hts; [| done].
    destruct (local_time (before_dot text)) eqn:Hclock; try done.
    injection Hblock as <-. split; [done |].
    exists doc, text. split_and!; [by left | done | done].
Qed.

(** X15.  What [get_context] makes of the answer of [search].  It
    returns the fixed sentence exactly when [search] answered with no
    result, which is the strategy [no_results]: the label "None" that the
    tool keeps for that strategy is never rendered.  Otherwise the label
    is one of "Vector", "Keyword" and "Vector-Weak", and the tool either
    returns one block per result, in order, joined by blank lines, or
    raises [OverflowError] because the timestamp of some result is out of
    the range of the clock, which [format_timestamp] does not catch.  In
    every case the world is the one [search] left. *)
Theorem get_context_renders_the_answer (query : string) (limit : Z)
  (w : world) :
  exists answer w',
    search query limit w = (Ok answer, w')
    /\ (get_context query limit w).2 = w'
    /\ match results answer with
       | [] =>
           search_strategy answer = "no_results"
           /\ (get_context query limit w).1 = Ok no_context
       | _ :: _ =>
           let method := search_method_of (search_strategy answer) in
           search_strategy answer <> "no_results"
           /\ (method = "Vector" \/ method = "Keyword"
               \/ method = "Vector-Weak")
           /\ match (get_context query limit w).1 with
              | Ok text =>
                  exists blocks,
                    text = String.concat (newline ++ newline) blocks
                    /\ Forall2 (fun doc block =>
                                  context_block method doc = Ok block)
                               (results answer) blocks
              | Raise e =>
                  e = OverflowError
                  /\ exists doc text,
                       doc ∈ results answer
                       /\ or_else (hit_metadata doc !! "ts")
                                  (hit_metadata doc !! "timestamp")
                          = Some text
                       /\ local_time (before_dot text) = Overflowed
              end
       end.
Proof.
  assert (Hshape : forall answer w',
             search query limit w = (Ok answer, w') ->
             results answer <> [] ->
             search_strategy answer <> "no_results" ->
             let method := search_method_of (search_strategy answer) in
             (method = "Vector" \/ method = "Keyword" \/ method = "Vector-Weak") ->
             (get_context query limit w).2 = w'
             /\ match (get_context query limit w).1 with
                | Ok text =>
                    exists blocks,
                      text = String.concat (newline ++ newline) blocks
                      /\ Forall2 (fun doc block =>
                                    context_block method doc = Ok block)
                                 (results answer) blocks
                | Raise e =>
                    e = OverflowError
                    /\ exists doc text,
                         doc ∈ results answer
                         /\ or_else (hit_metadata doc !! "ts")
                                    (hit_metadata doc !! "timestamp")
                            = Some text
                         /\ local_time (before_dot text) = Overflowed
                end).
  { intros answer w' Hrun Hsome _ method _.
    unfold get_context, bind. rewrite Hrun. fold method.
    destruct (results answer) as [| top others] eqn:Hres; [done |].
    destruct (context_blocks method (top :: others) []) as [parts | e] eqn:Hb.
    - split; [done |]. cbn [fst].
      apply context_blocks_ok in Hb as (blocks & -> & Hall). by exists blocks.
    - split; [done |]. cbn [fst]. by apply context_blocks_raise in Hb. }
  destruct (search_cases query limit w) as (vr & w1 & Hrun & Hcases).
  destruct vr as [| top others].
  { eexists _, w1. split; [exact Hcases |].
    unfold get_context, bind. rewrite Hcases. by cbn. }
  destruct Hcases as (d & Hd & Hcases).
  destruct (Qlt_bool d threshold).
  { eexists _, w1. split; [exact Hcases |].
    destruct (Hshape _ _ Hcases) as [Hw Hout]; [done | done | by left |].
    cbn [results search_strategy] in *. split; [done |].
    split_and!; [done | by left | done]. }
  destruct Hcases as (kr & w2 & Hkw & Hend).
  destruct kr as [| k ks].
  - eexists _, w2. split; [exact Hend |].
    destruct (Hshape _ _ Hend) as [Hw Hout]; [done | done | by right; right |].
    cbn [results search_strategy] in *. split; [done |].
    split_and!; [done | by right; right | done].
  - eexists _, w2. split; [exact Hend |].
    destruct (Hshape _ _ Hend) as [Hw Hout]; [done | done | by right; left |].
    cbn [results search_strategy] in *. split; [done |].
    split_and!; [done | by right; left | done].
Qed.

Lemma relevance_bounds (doc : hit) : (0 <= relevance doc <= 1)%Q.
Proof.
  unfold relevance, py_max, py_min.
  destruct (Qlt_bool (1 - default 0%Q (hit_distance doc)) 1) eqn:Hmin.
  - apply Qlt_bool_iff in Hmin.
    destruct (Qlt_bool 0 (1 - default 0%Q (hit_distance doc))) eqn:Hmax.
    + apply Qlt_bool_iff in Hmax. lra.
    + lra.
  - destruct (Qlt_bool 0 1) eqn:Hmax; lra.
Qed.

Lemma relevance_far (doc : hit) (d : Q) :
  hit_distance doc = Some d -> (threshold <= d)%Q ->
  (relevance doc <= 35 # 100)%Q.
Proof.
  intros Hd Hfar. unfold relevance, py_max, py_min, threshold in *.
  rewrite Hd. cbn [default from_option id].
  destruct (Qlt_bool (1 - d) 1) eqn:Hmin.
  - destruct (Qlt_bool 0 (1 - d)) eqn:Hmax; lra.
  - assert (Hno : ~ (1 - d < 1)%Q).
    { intros Hlt%Qlt_bool_iff. congruence. }
    lra.
Qed.

Lemma relevance_near (doc : hit) (d : Q) :
  hit_distance doc = Some d -> (d < threshold)%Q ->
  (35 # 100 < relevance doc)%Q.
Proof.
  intros Hd Hnear. unfold relevance, py_max, py_min, threshold in *.
  rewrite Hd. cbn [default from_option id].
  destruct (Qlt_bool (1 - d) 1) eqn:Hmin.
  - destruct (Qlt_bool 0 (1 - d)) eqn:Hmax; [lra |].
    assert (Hno : ~ (0 < 1 - d)%Q).
    { intros Hlt%Qlt_bool_iff. congruence. }
    lra.
  - destruct (Qlt_bool 0 1) eqn:Hmax; [lra |].
    assert (Hno : ~ (0 < 1)%Q).
    { intros Hlt%Qlt_bool_iff. congruence. }
    lra.
Qed.

(** X16.  The relevance [get_context] prints, by strategy.  The score
    [max(0, min(1, 1 - distance))] lies between 0 and 1.  Under [keyword]
    every result scores exactly 1, because keyword hits carry no distance
    and the tool reads a missing distance as 0; under [weak_match] no
    result scores above 0.35; under [strong_match] the first result
    scores above 0.35. *)
Theorem relevance_by_strategy (query : string) (limit : Z) (w : world) :
  exists answer w',
    search query limit w = (Ok answer, w')
    /\ Forall (fun doc => (0 <= relevance doc <= 1)%Q) (results answer)
    /\ (search_strategy answer = "keyword" ->
        Forall (fun doc => relevance doc = 1%Q) (results answer))
    /\ (search_strategy answer = "weak_match" ->
        Forall (fun doc => (relevance doc <= 35 # 100)%Q) (results answer))
    /\ (search_strategy answer = "strong_match" ->
        exists top others,
          results answer = top :: others /\ (35 # 100 < relevance top)%Q).
Proof.
  assert (Hbounds : forall l, Forall (fun doc => (0 <= relevance doc <= 1)%Q) l).
  { intros l. apply Forall_forall. intros doc _. apply relevance_bounds. }
  destruct (search_cases query limit w) as (vr & w1 & Hrun & Hcases).
  destruct (vector_search_profile query limit w)
    as (vr' & w1' & Hrun' & _ & _ & _ & Hsorted & _).
  assert (vr' = vr) as -> by congruence. clear Hrun' w1'.
  destruct vr as [| top others].
  { eexists _, w1. split; [exact Hcases |]. cbn. split_and!; try done. }
  destruct Hcases as (d & Hd & Hcases).
  destruct (Qlt_bool d threshold) eqn:Hnear.
  { eexists _, w1. split; [exact Hcases |]. cbn [results search_strategy].
    split_and!; [done | done | done |].
    intros _. exists top, others. split; [done |].
    apply (relevance_near _ d); [done |]. by apply Qlt_bool_iff. }
  assert (Hfar : (threshold <= d)%Q).
  { apply Qnot_lt_le. intros Hlt%Qlt_bool_iff. congruence. }
  destruct Hcases as (kr & w2 & Hkw & Hend).
  destruct kr as [| k ks].
  - eexists _, w2. split; [exact Hend |]. cbn [results search_strategy].
    split_and!; [done | done | | done].
    intros _. apply StronglySorted_inv in Hsorted as [_ Hrest].
    constructor; [by apply (relevance_far _ d) |].
    eapply Forall_impl; [exact Hrest |]. cbn.
    intros other Hcloser. unfold closer in Hcloser. rewrite Hd in Hcloser.
    destruct (hit_distance other) as [y |] eqn:Hy; [| done].
    apply (relevance_far _ y); [done | lra].
  - eexists _, w2. split; [exact Hend |]. cbn [results search_strategy].
    destruct (search_keyword_hits query limit w1)
      as (kr' & w2' & Hkw' & _ & _ & Hnone).
    assert (kr' = k :: ks) as -> by congruence.
    split_and!; [done | | done | done].
    intros _. eapply Forall_impl; [exact Hnone |]. cbn.
    intros doc Hdoc. unfold relevance. by rewrite Hdoc.
Qed.

End FurtherProperties.

(* ===================================================================== *)
(** ** The model at work: the stub deployment *)
(* ===================================================================== *)

Section Deployment.
Local Existing Instance Stub.collaborators.
Local Open Scope list_scope.

Example strip_both_ends : PyStr.strip "  hi there  " = "hi there".
Proof. reflexivity. Qed.

Example like_ignores_ascii_case :
  Sql.like "Weekly ROADMAP notes" "%roadmap%" = true.
Proof. reflexivity. Qed.

(** Scenario A of the specification: of a valid and a too short candidate
    only the first is stored, and the keyword search finds exactly it. *)
Example scenario_short_document_dropped :
  let w := Stub.after (add_documents [Stub.valid; Stub.short]) Stub.fresh_world in
  map row_content (documents (db w)) = [Some (content Stub.valid)]
  /\ map hit_content (Stub.answer (search_keyword "valid" 5 w))
     = [Some (content Stub.valid)].
Proof. by vm_compute. Qed.

(** Scenario B of the specification: a second batch whose write fails
    mid-way leaves none of its documents behind. *)
Example scenario_failing_batch_invisible :
  let w := Stub.after (add_documents [Stub.valid]) Stub.fresh_world in
  let run := add_documents [Stub.greeting; Stub.worldly]
                           (Stub.failing_at (executed w + 4) w) in
  run.1 = Raise (StorageFailure (executed w + 4))
  /\ db run.2 = db w
  /\ map row_content (documents (db run.2)) = [Some (content Stub.valid)]
  /\ map vec_rowid (vec_documents (db run.2)) = [1%Z].
Proof.
  intros w run.
  assert (Hraise : run.1 = Raise (StorageFailure (executed w + 4)))
    by (vm_compute; reflexivity).
  split_and!.
  - exact Hraise.
  - change (db w) with (db (Stub.failing_at (executed w + 4) w)).
    subst run. revert Hraise. apply add_documents_raise_left.
  - vm_compute. reflexivity.
  - vm_compute. reflexivity.
Qed.

(** The four strategies on the seeded store. *)
Example search_strategies :
  let strategy q := match (search q 5 Stub.seeded).1 with
                    | Ok a => search_strategy a
                    | Raise _ => "raised"
                    end in
  strategy "hello world 123" = "strong_match"
  /\ strategy "valid" = "keyword"
  /\ strategy "roadmap" = "weak_match"
  /\ match (search "roadmap" 5 Stub.fresh_world).1 with
     | Ok a => search_strategy a
     | Raise _ => "raised"
     end = "no_results".
Proof. by vm_compute. Qed.

(** C4, the claim as stated fails: with one candidate admitted and
    inserted, [add_documents] returns [None], not the count 1; on the empty
    batch it returns [None], not 0. *)
Lemma add_documents_returns_none :
  let run := add_documents [Stub.valid; Stub.short] Stub.fresh_world in
  length (documents (db run.2)) = 1%nat
  /\ run.1 = Ok None
  /\ run.1 <> Ok (Some 1%Z)
  /\ (add_documents [] Stub.fresh_world).1 = Ok None
  /\ (add_documents [] Stub.fresh_world).1 <> Ok (Some 0%Z).
Proof. by vm_compute. Qed.

(** C6, the claim as stated fails: the query [h_llo] returns a row whose
    content does not contain it, in any case, because [_] is a wildcard of
    LIKE; and under the limit -1 two rows come back, which is more than
    -1. *)
Lemma search_keyword_is_not_substring_search :
  map hit_content (Stub.answer (search_keyword "h_llo" 5 Stub.seeded))
  = [Some "hello world 123"]
  /\ Sql.contains_caseless "h_llo" "hello world 123" = false
  /\ map hit_content (Stub.answer (search_keyword "world" (-1) Stub.seeded))
     = [Some "hello world 123"; Some "another Worldly note"]
  /\ (Z.of_nat (length (Stub.answer (search_keyword "world" (-1) Stub.seeded)))
      > -1)%Z.
Proof. by vm_compute. Qed.

(** C9 at work: the seeded store is reachable, hence paired. *)
Lemma seeded_store_is_paired :
  reachable (db Stub.seeded) /\ consistent (db Stub.seeded).
Proof.
  assert (Hreach : reachable (db Stub.seeded)).
  { exact (reachable_add
             [Stub.valid; Stub.short; Stub.anonymous; Stub.greeting;
              Stub.worldly; Stub.ten]
             Stub.fresh_world reachable_init). }
  split; [exact Hreach |].
  exact (proj1 (reachable_store_is_paired (db Stub.seeded) Hreach)).
Defined.

(** C10 at work: the ten-character note is admitted and stored, and no
    search returns it. *)
Lemma ten_characters_witness :
  String.length (content Stub.ten) = 10%nat
  /\ PyStr.strip (content Stub.ten) = content Stub.ten
  /\ source Stub.ten <> "Unknown"
  /\ quality_filter Stub.ten = keep
  /\ (exists w' r v,
        add_documents [Stub.ten] Stub.fresh_world = (Ok None, w')
        /\ documents (db w') = [r] /\ vec_documents (db w') = [v]
        /\ row_content r = Some "0123456789"
        /\ vec_rowid v = row_rowid r)
  /\ Some "0123456789" ∈ map row_content (documents (db Stub.seeded))
  /\ (exists hits w',
        search_keyword "0123456789" 5 Stub.seeded = (Ok hits, w')
        /\ Forall (fun h => hit_content h <> Some "0123456789") hits)
  /\ (exists a w',
        search "0123456789" 5 Stub.seeded = (Ok a, w')
        /\ Forall (fun h => hit_content h <> Some "0123456789") (results a)).
Proof.
  destruct (ten_characters_stored_never_returned Stub.ten eq_refl eq_refl
              ltac:(discriminate)) as (Hkeep & Hadd & Hkeyword & Hsearch).
  split_and!; [reflexivity | reflexivity | discriminate | exact Hkeep | | | |].
  - destruct (Hadd Stub.fresh_world) as (w' & r & v & Hrun & Hd & Hv & _ & Hc & Hid).
    + split; [reflexivity | constructor].
    + reflexivity.
    + reflexivity.
    + exists w', r, v. split_and!; [exact Hrun | exact Hd | exact Hv | exact Hc | exact Hid].
  - vm_compute. do 3 right. left.
  - apply Hkeyword.
  - apply Hsearch.
Defined.

(** An empty keyword answer can be a lost one: with the engine failing the
    query, the search for a word the store holds returns nothing. *)
Example lost_keyword_search :
  map hit_content (Stub.answer (search_keyword "world" 5 Stub.seeded))
  = [Some "hello world 123"; Some "another Worldly note"]
  /\ Stub.answer
       (search_keyword "world" 5
          (Stub.failing_at (executed Stub.seeded) Stub.seeded)) = []
  /\ Stub.answer (search_keyword "world" (2 ^ 63) Stub.seeded) = [].
Proof. by vm_compute. Qed.

(** The LIKE function refuses a pattern of more than 50000 bytes: one
    percent sign as the query finds every readable row, 49999 of them find
    none. *)
Example long_pattern_is_refused :
  length (Stub.answer (search_keyword "%" 5 Stub.seeded)) = 3%nat
  /\ Sql.bytes ("%" ++ Stub.percents 49999%N ++ "%") = 50001%Z
  /\ Stub.answer (search_keyword (Stub.percents 49999%N) 5 Stub.seeded) = []
  /\ Stub.answer (search_keyword (Stub.percents 49999%N) 5 Stub.fresh_world)
     = [].
Proof. by vm_compute. Qed.

(** sqlite-vec takes a [k] of 4096 and refuses one of 4097. *)
Example large_limit_is_refused :
  (match (search "hello world 123" 4096 Stub.seeded).1 with
   | Ok a => search_strategy a
   | Raise _ => "raised"
   end = "strong_match")
  /\ match (search "hello world 123" 4097 Stub.seeded).1 with
     | Ok a => search_strategy a
     | Raise _ => "raised"
     end = "no_results".
Proof. by vm_compute. Qed.

(** X5 at work: under the limit -1 the hybrid search answers
    [no_results]. *)
Lemma negative_limit_is_no_results :
  exists e w',
    search "world" (-1) Stub.seeded
    = (Ok {| results := []; search_strategy := "no_results" |}, w')
    /\ trace w' = trace Stub.seeded
                  ++ [Connect; Print (ErrorVectorSearch e); Close]
    /\ conn w' = None.
Proof.
  apply (vector_failure_is_no_results "world" (-1) Stub.seeded).
  right; right; left; lia.
Defined.


(** X7 at work: the second admitted document of a batch of three
    candidates. *)
Lemma second_admitted_document :
  exists r v,
    documents
      (db (add_documents [Stub.valid; Stub.short; Stub.greeting]
                         Stub.fresh_world).2) !! 1%nat = Some r
    /\ vec_documents
         (db (add_documents [Stub.valid; Stub.short; Stub.greeting]
                            Stub.fresh_world).2) !! 1%nat = Some v
    /\ row_rowid r = 2%Z /\ vec_rowid v = 2%Z
    /\ row_content r = Some "hello world 123".
Proof.
  destruct (add_documents_writes_in_order
              [Stub.valid; Stub.short; Stub.greeting] Stub.fresh_world None)
    as (_ & _ & _ & _ & Hnew & _); [vm_compute; reflexivity |].
  destruct (Hnew 1%nat Stub.greeting) as [Hrow Hvec]; [reflexivity |].
  eexists _, _. split; [exact Hrow |]. split; [exact Hvec |].
  by split_and!.
Defined.

(** X8 at work: one admitted and one dropped candidate. *)
Lemma one_admitted_one_dropped :
  executed (add_documents [Stub.valid; Stub.short] Stub.fresh_world).2 = 4%nat
  /\ minted (add_documents [Stub.valid; Stub.short] Stub.fresh_world).2 = 1%nat.
Proof.
  apply (add_documents_accounting [Stub.valid; Stub.short] Stub.fresh_world
                                  None);
    [done | vm_compute; reflexivity].
Defined.



(** X11 at work: the stored note nearest to the query is the
    ten-character one, which the read filter rejects. *)
Lemma nearest_neighbour_hides_the_rest :
  exists w' evs,
    search "0123456789" 1 Stub.seeded
    = (Ok {| results := []; search_strategy := "no_results" |}, w')
    /\ trace w' = trace Stub.seeded ++ evs /\ session evs
    /\ Forall (fun e => forall x, e <> Print (ErrorKeywordSearch x)) evs.
Proof.
  apply (filtered_neighbours_hide_the_rest "0123456789" 1 Stub.seeded).
  intros m d Hm Hd Hrowid.
  let l := eval vm_compute in
        (knn_matches (embed_text "0123456789") 1 (db Stub.seeded)) in
  assert (Hknn : knn_matches (embed_text "0123456789") 1 (db Stub.seeded) = l)
    by (vm_compute; reflexivity).
  rewrite Hknn in Hm. clear Hknn. apply list_elem_of_singleton in Hm as ->.
  let l := eval vm_compute in (documents (db Stub.seeded)) in
  assert (Hdocs : documents (db Stub.seeded) = l)
    by (vm_compute; reflexivity).
  rewrite Hdocs in Hd. clear Hdocs.
  repeat (apply elem_of_cons in Hd as [-> | Hd]);
    [| | | | destruct (not_elem_of_nil _ Hd)];
    cbn in Hrowid; first [discriminate Hrowid | reflexivity].
Defined.

(** A worker's report counts the dropped candidate too. *)
Example slack_report_overcounts :
  match (slack_worker_sync granted ([], Ok [Stub.valid; Stub.short])
                           Stub.fresh_world).2 with
  | (Ok report, w') =>
      report_documents report = 2%nat
      /\ length (documents (db w')) = 1%nat
  | (Raise _, _) => False
  end.
Proof. by vm_compute. Qed.

(** X13 at work. *)
Lemma google_report_witness :
  exists calendar_events emails,
    report_count "calendar_events"
      {| report_documents := 2;
         report_breakdown := [("calendar_events", 1%nat); ("emails", 1%nat)];
         report_success := true |} = Some calendar_events
    /\ report_count "emails"
         {| report_documents := 2;
            report_breakdown := [("calendar_events", 1%nat); ("emails", 1%nat)];
            report_success := true |} = Some emails
    /\ (calendar_events + emails <= 2)%nat
    /\ (Forall (fun d => source d = "google_calendar" \/ source d = "gmail")
               Stub.google_batch ->
        (calendar_events + emails)%nat = 2%nat).
Proof.
  apply (google_report_splits_the_batch granted Stub.connector_calls
           Stub.google_batch Stub.fresh_world).
  - done.
  - vm_compute. reflexivity.
Defined.

(** X14 at work. *)
Lemma github_report_witness :
  report_count "pull_requests"
    {| report_documents := 3;
       report_breakdown :=
         [("issues", 2%nat); ("pull_requests", 0%nat); ("comments", 2%nat)];
       report_success := true |} = Some 0%nat.
Proof.
  destruct (github_report_on_connector_sources
              granted Stub.connector_calls Stub.github_batch Stub.fresh_world
              {| report_documents := 3;
                 report_breakdown :=
                   [("issues", 2%nat); ("pull_requests", 0%nat);
                    ("comments", 2%nat)];
                 report_success := true |}) as (Hpr & _).
  - done.
  - repeat constructor.
  - vm_compute. reflexivity.
  - exact Hpr.
Defined.

End Deployment.
